(** * A verification model of the Pawn WASM compiler wrapper

    The development embeds the two halves of the boundary layer:

    - the C entry point [pawncl_compile] of [wasm_interface.c], which
      stages the source, builds the argument vector and reports the
      outcome of the opaque compiler as a text message;
    - the TypeScript wrapper around it ([initCompiler], [addIncludeFile],
      [compile], [parseCompilerOutput], [getCompiledAMX], [cleanup]).

    JavaScript strings are modelled as Rocq strings, read as sequences of
    code units below 256 (the compiler's output and the virtual paths are
    ASCII).  The module's private filesystem is a finite map from
    normalised paths to nodes. *)

From Stdlib Require Import String Ascii List ZArith NArith Lia Bool.
From Stdlib Require Import DecimalString DecimalPos.
From stdpp Require Import base option list strings gmap.
Import ListNotations.

Local Open Scope string_scope.
Local Open Scope list_scope.

(** ** JavaScript string primitives used by the wrapper *)

Module JS.

(** [s.startsWith(p)] *)
Fixpoint startsWith (p s : string) : bool :=
  match p, s with
  | EmptyString, _ => true
  | String a p', String b s' => if Ascii.eqb a b then startsWith p' s' else false
  | String _ _, EmptyString => false
  end.

(** [s.includes(needle)]: [needle] occurs somewhere in [s]. *)
Fixpoint includes (s needle : string) : bool :=
  startsWith needle s
  || match s with
     | EmptyString => false
     | String _ s' => includes s' needle
     end.

(** [s.split(sep)] for a one-character separator; the result always has
    at least one element: splitting the empty string gives one empty
    part. *)
Fixpoint split (sep : ascii) (s : string) : list string :=
  match s with
  | EmptyString => [EmptyString]
  | String c s' =>
      if Ascii.eqb c sep then EmptyString :: split sep s'
      else match split sep s' with
           | [] => [String c EmptyString]
           | l :: ls => String c l :: ls
           end
  end.

(** [parts.join(sep)] *)
Fixpoint join (sep : string) (parts : list string) : string :=
  match parts with
  | [] => EmptyString
  | [x] => x
  | x :: xs => String.append x (String.append sep (join sep xs))
  end.

(** White space in the sense of [String.prototype.trim], restricted to
    code units below 256: TAB, LF, VT, FF, CR, SPACE and NBSP. *)
Definition isWhiteSpace (c : ascii) : bool :=
  let n := nat_of_ascii c in
  ((9 <=? n)%nat && (n <=? 13)%nat) || (n =? 32)%nat || (n =? 160)%nat.

Fixpoint trimStart (s : string) : string :=
  match s with
  | EmptyString => EmptyString
  | String c s' => if isWhiteSpace c then trimStart s' else s
  end.

Fixpoint trimEnd (s : string) : string :=
  match s with
  | EmptyString => EmptyString
  | String c s' =>
      match trimEnd s' with
      | EmptyString => if isWhiteSpace c then EmptyString else String c EmptyString
      | t => String c t
      end
  end.

(** [s.trim()] *)
Definition trim (s : string) : string := trimEnd (trimStart s).

(** The character class [\d]. *)
Definition isDigit (c : ascii) : bool :=
  let n := nat_of_ascii c in (48 <=? n)%nat && (n <=? 57)%nat.

(** The longest run of digits at the head of [s], and what follows. *)
Fixpoint spanDigits (s : string) : string * string :=
  match s with
  | EmptyString => (EmptyString, EmptyString)
  | String c s' =>
      if isDigit c
      then let (d, r) := spanDigits s' in (String c d, r)
      else (EmptyString, s)
  end.

Fixpoint dropChars (n : nat) (s : string) : string :=
  match n, s with
  | O, _ => s
  | S n', String _ s' => dropChars n' s'
  | S _, EmptyString => EmptyString
  end.

(** [parseInt(d, 10)] on a run of decimal digits.  The value is exact;
    a JavaScript number represents it exactly below 2^53. *)
Fixpoint parseDigits (acc : N) (d : string) : N :=
  match d with
  | EmptyString => acc
  | String c d' => parseDigits (acc * 10 + (N_of_ascii c - 48))%N d'
  end.

Definition parseInt (d : string) : N := parseDigits 0%N d.

(** [`${n}`] for an integer-valued number [n] (plain decimal notation,
    which JavaScript uses below 10^21 in magnitude). *)
Definition numberToString (n : Z) : string :=
  NilZero.string_of_int (Z.to_int n).

End JS.

(** ** The diagnostic parser: [parseCompilerOutput] *)

Record CompilationResult := mkResult {
  success : bool;
  output : string;
  errors : list string;
  warnings : list string;
  amxSize : option N
}.

Definition LF : ascii := ascii_of_nat 10.

Definition successMarker : string := "Compilation successful".

(** [line.match(/AMX file size: (\d+) bytes/)] anchored at the head of
    [s]: the first capture group when the pattern matches there.  The
    group is greedy and the text after it starts with a space, so no
    shorter run of digits can match. *)
Definition matchSizeHere (s : string) : option string :=
  if JS.startsWith "AMX file size: " s
  then let (d, r) := JS.spanDigits (JS.dropChars 15 s) in
       match d with
       | EmptyString => None
       | _ => if JS.startsWith " bytes" r then Some d else None
       end
  else None.

(** The leftmost match of the pattern in [s]. *)
Fixpoint matchSize (s : string) : option string :=
  match matchSizeHere s with
  | Some d => Some d
  | None => match s with
            | EmptyString => None
            | String _ s' => matchSize s'
            end
  end.

(** The local variables of [parseCompilerOutput]. *)
Record parseVars := mkVars {
  v_success : bool;
  v_errors : list string;
  v_warnings : list string;
  v_amxSize : option N
}.

Definition detectSuccess (v : parseVars) (line : string) : parseVars :=
  if JS.includes line successMarker
  then mkVars true (v_errors v) (v_warnings v)
         (match matchSize line with
          | Some d => Some (JS.parseInt d)
          | None => v_amxSize v
          end)
  else v.

Definition extractError (v : parseVars) (line : string) : parseVars :=
  if JS.includes line "error" && JS.includes line ":"
  then mkVars (v_success v) (v_errors v ++ [JS.trim line]) (v_warnings v) (v_amxSize v)
  else v.

Definition extractWarning (v : parseVars) (line : string) : parseVars :=
  if JS.includes line "warning" && JS.includes line ":"
  then mkVars (v_success v) (v_errors v) (v_warnings v ++ [JS.trim line]) (v_amxSize v)
  else v.

(** One iteration of the [for (const line of lines)] loop. *)
Definition parseLine (v : parseVars) (line : string) : parseVars :=
  extractWarning (extractError (detectSuccess v line) line) line.

Definition parseCompilerOutput (out : string) : CompilationResult :=
  let lines := JS.split LF out in
  let v := fold_left parseLine lines (mkVars false [] [] None) in
  mkResult (v_success v) out (v_errors v) (v_warnings v) (v_amxSize v).

(** ** The module's private filesystem

    A model of the part of the Emscripten in-memory filesystem that the
    wrapper and the C entry point call.  Paths are resolved textually to
    a list of segments; the filesystem maps a resolved path to its node.
    The root is always a directory. *)

Module PATH.

(** Resolution of an absolute path: split on the slash, drop empty and
    [.] segments, and let [..] remove the segment before it (it has no
    effect at the root).  [stack] holds the segments kept so far, the
    innermost first. *)
Fixpoint normalizeArray (stack : list string) (parts : list string) : list string :=
  match parts with
  | [] => rev stack
  | p :: ps =>
      if String.eqb p EmptyString then normalizeArray stack ps
      else if String.eqb p "." then normalizeArray stack ps
      else if String.eqb p ".." then normalizeArray (tl stack) ps
      else normalizeArray (p :: stack) ps
  end.

Definition resolve (path : string) : list string :=
  normalizeArray [] (JS.split "/" path).

(** The directory a resolved path lives in. *)
Definition dirname (p : list string) : list string := removelast p.

End PATH.

Inductive node :=
| File (contents : string)
| Dir.

(** The error codes the modelled operations raise, with the numbers the
    Emscripten runtime gives them. *)
Inductive errcode := EEXIST | ENOENT | ENOTDIR | EISDIR.

Definition errno (e : errcode) : Z :=
  match e with
  | EEXIST => 20
  | ENOENT => 44
  | ENOTDIR => 54
  | EISDIR => 31
  end.

(** The [message] property of the runtime's [ErrnoError]. *)
Definition message (e : errcode) : string := "FS error".

Abbreviation filesystem := (gmap (list string) node).

Module FS.

Definition lookupNode (fs : filesystem) (p : list string) : option node :=
  match p with
  | [] => Some Dir
  | _ => fs !! p
  end.

(** [FS.analyzePath(path).exists]; it never throws. *)
Definition exists_ (fs : filesystem) (path : string) : bool :=
  match lookupNode fs (PATH.resolve path) with
  | Some _ => true
  | None => false
  end.

(** What creating a new entry at [p] requires of its parent. *)
Definition mayCreate (fs : filesystem) (p : list string) : option errcode :=
  match lookupNode fs (PATH.dirname p) with
  | Some Dir => None
  | Some (File _) => Some ENOTDIR
  | None => Some ENOENT
  end.

(** [FS.mkdir(path)] *)
Definition mkdir (fs : filesystem) (path : string) : filesystem + errcode :=
  let p := PATH.resolve path in
  match lookupNode fs p with
  | Some _ => inr EEXIST
  | None =>
      match mayCreate fs p with
      | Some e => inr e
      | None => inl (<[p := Dir]> fs)
      end
  end.

(** [FS.unlink(path)] *)
Definition unlink (fs : filesystem) (path : string) : filesystem + errcode :=
  let p := PATH.resolve path in
  match lookupNode fs p with
  | Some (File _) => inl (delete p fs)
  | Some Dir => inr EISDIR
  | None => inr ENOENT
  end.

(** [FS.writeFile(path, data)]: create or truncate, then write. *)
Definition writeFile (fs : filesystem) (path : string) (data : string)
  : filesystem + errcode :=
  let p := PATH.resolve path in
  match lookupNode fs p with
  | Some Dir => inr EISDIR
  | Some (File _) => inl (<[p := File data]> fs)
  | None =>
      match mayCreate fs p with
      | Some e => inr e
      | None => inl (<[p := File data]> fs)
      end
  end.

(** [FS.readFile(path)] *)
Definition readFile (fs : filesystem) (path : string) : string + errcode :=
  match lookupNode fs (PATH.resolve path) with
  | Some (File c) => inl c
  | Some Dir => inr EISDIR
  | None => inr ENOENT
  end.

End FS.

(** ** Wrapper state and completions *)

(** What a JavaScript call can throw in this code: a filesystem error
    raised by the runtime, or an [Error] built by the wrapper. *)
Inductive thrown :=
| ErrnoError (code : errcode)
| JsError (text : string).

Inductive completion (A : Type) :=
| Return (a : A)
| Throw (e : thrown).

Arguments Return {A} a.
Arguments Throw {A} e.

(** The module-level variables of the wrapper.  The module instance is
    identified with its private filesystem; [readyCallbacks] holds the
    identifiers of the callers whose promise is pending. *)
Record wrapper := mkWrapper {
  compilerModule : option filesystem;
  compilerReady : bool;
  readyCallbacks : list nat
}.

Definition setFS (w : wrapper) (fs : filesystem) : wrapper :=
  mkWrapper (Some fs) (compilerReady w) (readyCallbacks w).

Definition notInitialized : string :=
  "Compiler not initialized. Call initCompiler() first.".

(** ** The include store: [addIncludeFile] and [addIncludeFiles] *)

(** The test of the [catch] clause that recognises "File exists". *)
Definition isFileExists (e : errcode) : bool :=
  (errno e =? 17)%Z || JS.includes (message e) "File exists".

(** The loop over [parts[0 .. length-2]]; [currentPath] is the path
    built so far. *)
Fixpoint mkdirLoop (fs : filesystem) (currentPath : string) (dirs : list string)
  : filesystem * completion unit :=
  match dirs with
  | [] => (fs, Return tt)
  | part :: rest =>
      let currentPath := String.append currentPath (String.append "/" part) in
      match FS.mkdir fs currentPath with
      | inl fs' => mkdirLoop fs' currentPath rest
      | inr err =>
          if isFileExists err then mkdirLoop fs currentPath rest
          else if FS.exists_ fs currentPath then mkdirLoop fs currentPath rest
          else (fs, Throw (ErrnoError err))
      end
  end.

Definition includePath (filename : string) : string :=
  String.append "/include/" filename.

(** The [try] block that replaces the file. *)
Definition replaceFile (fs : filesystem) (path content : string)
  : filesystem * completion unit :=
  let unlinked :=
    if FS.exists_ fs path then FS.unlink fs path else inl fs in
  match unlinked with
  | inr e => (fs, Throw (ErrnoError e))
  | inl fs1 =>
      match FS.writeFile fs1 path content with
      | inr e => (fs1, Throw (ErrnoError e))
      | inl fs2 => (fs2, Return tt)
      end
  end.

Definition addIncludeFile (w : wrapper) (filename content : string)
  : wrapper * completion unit :=
  match compilerModule w with
  | None => (w, Throw (JsError notInitialized))
  | Some fs =>
      let parts := JS.split "/" filename in
      let made :=
        if (1 <? length parts)%nat
        then mkdirLoop fs "/include" (removelast parts)
        else (fs, Return tt) in
      match made with
      | (fs1, Throw e) => (setFS w fs1, Throw e)
      | (fs1, Return _) =>
          let (fs2, c) := replaceFile fs1 (includePath filename) content in
          (setFS w fs2, c)
      end
  end.

(** [for (const file of files) addIncludeFile(file.filename, file.content)] *)
Fixpoint addIncludeFiles (w : wrapper) (files : list (string * string))
  : wrapper * completion unit :=
  match files with
  | [] => (w, Return tt)
  | (filename, content) :: rest =>
      match addIncludeFile w filename content with
      | (w', Return _) => addIncludeFiles w' rest
      | (w', Throw e) => (w', Throw e)
      end
  end.

(** ** Artifact retrieval and cleanup *)

Definition outputPath : string := "/output.amx".
Definition inputPath : string := "/input.pwn".
Definition logPath : string := "/output.txt".

(** [getCompiledAMX]: [None] stands for [null]. *)
Definition getCompiledAMX (w : wrapper) : completion (option string) :=
  match compilerModule w with
  | None => Throw (JsError "Compiler not initialized.")
  | Some fs =>
      if negb (FS.exists_ fs outputPath) then Return None
      else match FS.readFile fs outputPath with
           | inl bytes => Return (Some bytes)
           | inr _ => Return None
           end
  end.

(** The body of the [try] block of [cleanup]: the loop stops at the
    first removal that throws. *)
Fixpoint cleanupLoop (fs : filesystem) (files : list string)
  : filesystem * option thrown :=
  match files with
  | [] => (fs, None)
  | file :: rest =>
      if FS.exists_ fs file
      then match FS.unlink fs file with
           | inl fs' => cleanupLoop fs' rest
           | inr e => (fs, Some (ErrnoError e))
           end
      else cleanupLoop fs rest
  end.

Definition cleanupFiles : list string := [inputPath; outputPath; logPath].

(** [cleanup]: the second component is what [console.error] received
    from the [catch] clause, if it ran. *)
Definition cleanup (w : wrapper) : wrapper * option thrown :=
  match compilerModule w with
  | None => (w, None)
  | Some fs =>
      let (fs', reported) := cleanupLoop fs cleanupFiles in
      (setFS w fs', reported)
  end.

(** ** The C entry point: [pawncl_compile] *)

(** A C string ends at the first NUL. *)
Fixpoint cstr (s : string) : string :=
  match s with
  | EmptyString => EmptyString
  | String c s' => if Ascii.eqb c zero then EmptyString else String c (cstr s')
  end.

(** The successive results of [strtok(options_copy, " ")] and
    [strtok(NULL, " ")]: the non-empty fields between spaces. *)
Definition strtok (s : string) : list string :=
  List.filter (fun t => negb (String.eqb t EmptyString)) (JS.split " " s).

(** The [while (token != NULL && argc < 30)] loop: [argv] is the vector
    filled so far and [argc] its length. *)
Fixpoint tokenLoop (tokens : list string) (argv : list string) (argc : nat)
  : list string * nat :=
  match tokens with
  | [] => (argv, argc)
  | token :: rest =>
      if (argc <? 30)%nat
      then tokenLoop rest (argv ++ [token]) (S argc)
      else (argv, argc)
  end.

(** The argument vector handed to the compiler, with its length. *)
Definition buildArgv (options : option string) : list string * nat :=
  let argv := ["pawncc"; "-o/output.amx"] in
  let argc := 2%nat in
  let (argv, argc) :=
    match options with
    | Some o =>
        if (0 <? String.length o)%nat then tokenLoop (strtok o) argv argc
        else (argv, argc)
    | None => (argv, argc)
    end in
  (argv ++ ["/input.pwn"], S argc).

(** What a call of the opaque compiler can do: return a result code, or
    leave the module by a trap, which the host sees as an exception with
    some text.  Either way it may have changed the filesystem. *)
Inductive pc_outcome :=
| PcReturn (result : Z) (fs : filesystem)
| PcTrap (text : string) (fs : filesystem).

(** [fopen(path, "w")], [fprintf(fp, "%s", text)], [fclose(fp)]; [None]
    when the stream cannot be opened. *)
Definition fwriteAll (fs : filesystem) (path text : string) : option filesystem :=
  match FS.writeFile fs path text with
  | inl fs' => Some fs'
  | inr _ => None
  end.

(** [fopen(path, "rb")], [fseek(.., SEEK_END)], [ftell]: the size of what
    is at [path], or [None] when nothing is.  A directory opens for
    reading and has size 0. *)
Definition fsize (fs : filesystem) (path : string) : option Z :=
  match FS.lookupNode fs (PATH.resolve path) with
  | Some (File c) => Some (Z.of_nat (String.length c))
  | Some Dir => Some 0%Z
  | None => None
  end.

Definition NL : string := String LF EmptyString.

Definition msgSuccess (amx_size : Z) : string :=
  String.append "Compilation successful! AMX file size: "
    (String.append (JS.numberToString amx_size) (String.append " bytes" NL)).

Definition msgNoAmx : string :=
  String.append "Compilation completed but AMX file not found" NL.

Definition msgFailed (result : Z) : string :=
  String.append "Compilation failed with error code: "
    (String.append (JS.numberToString result) NL).

(** What the host gets back from the call across the boundary. *)
Inductive ccall_outcome :=
| CReturn (text : string) (fs : filesystem)
| CTrap (text : string) (fs : filesystem).

(** The options of [compile]; [None] stands for an absent property. *)
Record CompilerOptions := mkOptions {
  optimizationLevel : option Z;
  debugLevel : option Z;
  additionalFlags : option (list string)
}.

(** The flag array built by [compile]. *)
Definition optionsArray (options : CompilerOptions) : list string :=
  let a := [] in
  let a := match optimizationLevel options with
           | Some n => a ++ [String.append "-O" (JS.numberToString n)]
           | None => a
           end in
  let a := match debugLevel options with
           | Some n => a ++ [String.append "-d" (JS.numberToString n)]
           | None => a
           end in
  let a := a ++ ["-i/include"] in
  match additionalFlags options with
  | Some flags => a ++ flags
  | None => a
  end.

Definition optionsString (options : CompilerOptions) : string :=
  JS.join " " (optionsArray options).

Section Compiler.

(** The opaque compiler [pc_compile(argc, argv)], acting on the
    module's filesystem. *)
Variable pc_compile : nat -> list string -> filesystem -> pc_outcome.

(** [pawncl_compile(source_code, options)].  The heap is not modelled,
    so [malloc] succeeds; the header line and whatever the compiler
    prints go to the console and are not part of the returned text. *)
Definition pawncl_compile (fs : filesystem) (source_code : string)
    (options : option string) : ccall_outcome :=
  match fwriteAll fs inputPath source_code with
  | None => CReturn "Error: Could not create input file" fs
  | Some fs1 =>
      let (argv, argc) := buildArgv options in
      match pc_compile argc argv fs1 with
      | PcTrap text fs2 => CTrap text fs2
      | PcReturn result fs2 =>
          if (result =? 0)%Z
          then match fsize fs2 outputPath with
               | Some amx_size => CReturn (msgSuccess amx_size) fs2
               | None => CReturn msgNoAmx fs2
               end
          else CReturn (msgFailed result) fs2
      end
  end.

(** ** The invocation bridge: [compile] *)

Definition compile (w : wrapper) (sourceCode : string) (options : CompilerOptions)
  : wrapper * completion CompilationResult :=
  match compilerReady w, compilerModule w with
  | true, Some fs =>
      match pawncl_compile fs (cstr sourceCode) (Some (cstr (optionsString options))) with
      | CReturn out fs' => (setFS w fs', Return (parseCompilerOutput out))
      | CTrap error fs' =>
          (setFS w fs', Return (mkResult false error [error] [] None))
      end
  | _, _ => (w, Throw (JsError notInitialized))
  end.

End Compiler.

(** ** The lifecycle manager: [initCompiler]

    [initCompiler] is an asynchronous function with two suspension
    points: the dynamic import of the module script and the creation of
    the module instance.  Between suspension points its code runs without
    interruption.  A run of the system is a sequence of events: a caller
    enters [initCompiler], or one of the awaited promises settles and the
    suspended call continues to its next suspension point or to its end. *)

Inductive callState :=
| AwaitImport           (* suspended at [await import(..)] *)
| AwaitCreate           (* suspended at [await createPawnCompiler(..)] *)
| Pending               (* holds a promise whose resolver is queued *)
| Fulfilled
| Rejected (e : thrown).

Record world := mkWorld {
  vars : wrapper;
  calls : gmap nat callState;
  resolved : list nat     (* the callers resumed from the queue, in order *)
}.

Inductive event :=
| Call (id : nat)
| ImportSettled (id : nat) (failure : option string)
| CreateSettled (id : nat) (result : filesystem + string).

(** [String(error)] *)
Definition toString (e : thrown) : string :=
  match e with
  | ErrnoError c => String.append "ErrnoError: " (message c)
  | JsError t => String.append "Error: " t
  end.

(** The [catch] clause: [throw new Error(`Compiler initialization failed: ${error}`)]. *)
Definition initFailure (error : string) : callState :=
  Rejected (JsError (String.append "Compiler initialization failed: " error)).

Definition setCall (s : world) (id : nat) (c : callState) : world :=
  mkWorld (vars s) (<[id := c]> (calls s)) (resolved s).

(** The code of [initCompiler] up to its first suspension point. *)
Definition initEnter (s : world) (id : nat) : world :=
  let w := vars s in
  if compilerReady w then setCall s id Fulfilled
  else match compilerModule w with
       | Some fs =>
           mkWorld (mkWrapper (Some fs) (compilerReady w) (readyCallbacks w ++ [id]))
                   (<[id := Pending]> (calls s)) (resolved s)
       | None => setCall s id AwaitImport
       end.

(** [readyCallbacks.forEach(cb => cb())] *)
Definition resolveAll (cbs : list nat) (cs : gmap nat callState) : gmap nat callState :=
  fold_left (fun m cb => <[cb := Fulfilled]> m) cbs cs.

(** The code after [await createPawnCompiler(..)] has produced the
    module instance [fs]. *)
Definition initFinish (s : world) (id : nat) (fs : filesystem) : world :=
  let w := vars s in
  match FS.mkdir fs "/include" with
  | inr e =>
      mkWorld (mkWrapper (Some fs) (compilerReady w) (readyCallbacks w))
              (<[id := initFailure (toString (ErrnoError e))]> (calls s))
              (resolved s)
  | inl fs' =>
      mkWorld (mkWrapper (Some fs') true [])
              (<[id := Fulfilled]> (resolveAll (readyCallbacks w) (calls s)))
              (resolved s ++ readyCallbacks w)
  end.

Definition step (s : world) (ev : event) : world :=
  match ev with
  | Call id =>
      match calls s !! id with
      | None => initEnter s id
      | Some _ => s
      end
  | ImportSettled id failure =>
      match calls s !! id with
      | Some AwaitImport =>
          match failure with
          | None => setCall s id AwaitCreate
          | Some error => setCall s id (initFailure error)
          end
      | _ => s
      end
  | CreateSettled id result =>
      match calls s !! id with
      | Some AwaitCreate =>
          match result with
          | inl fs => initFinish s id fs
          | inr error => setCall s id (initFailure error)
          end
      | _ => s
      end
  end.

Definition run (s : world) (evs : list event) : world := fold_left step evs s.

(** The state of a freshly loaded page. *)
Definition initialWrapper : wrapper := mkWrapper None false [].
Definition initialWorld : world := mkWorld initialWrapper ∅ [].

(** The three lifecycle states, read off the module-level variables the
    way [initCompiler] tests them. *)
Inductive ModuleState := Uninitialized | Initializing | Ready.

Definition moduleState (w : wrapper) : ModuleState :=
  if compilerReady w then Ready
  else match compilerModule w with
       | Some _ => Initializing
       | None => Uninitialized
       end.

(** ** Vocabulary for the statements *)

(** The three tests of the line loop of [parseCompilerOutput]. *)
Definition hasMarker (line : string) : bool := JS.includes line successMarker.
Definition isErrorLine (line : string) : bool :=
  JS.includes line "error" && JS.includes line ":".
Definition isWarningLine (line : string) : bool :=
  JS.includes line "warning" && JS.includes line ":".

(** The two outputs the specification uses as examples. *)
Definition exampleSuccessOutput : string :=
  String.append "Compilation successful! AMX file size: 4096 bytes" NL.

Definition exampleErrorLine : string :=
  "input.pwn(3) : error 017: undefined symbol".

(** How [compile] tests readiness. *)
Definition isReady (w : wrapper) : bool :=
  compilerReady w && match compilerModule w with Some _ => true | None => false end.

(** The ready flag is only set on a wrapper that holds a module
    instance. *)
Definition wellFormed (w : wrapper) : Prop :=
  compilerReady w = true -> compilerModule w <> None.

(** Twenty-nine distinct flags, one more than the argument vector takes. *)
Definition manyFlags : list string :=
  List.map (fun n => String.append "-f" (JS.numberToString (Z.of_nat n))) (seq 1 29).

(** A compiler that leaves the module by a trap. *)
Definition trappingCompiler (argc : nat) (argv : list string) (fs : filesystem)
  : pc_outcome := PcTrap "RuntimeError: unreachable" fs.

(** A compiler that writes a four-byte artifact and returns 0. *)
Definition workingCompiler (argc : nat) (argv : list string) (fs : filesystem)
  : pc_outcome := PcReturn 0 (<[PATH.resolve outputPath := File "AMX!"]> fs).

(** A module instance right after a successful [initCompiler]. *)
Definition readyWrapper : wrapper :=
  mkWrapper (Some {[ ["include"] := Dir ]}) true [].

(** A store with an include directory, a subdirectory and a file. *)
Definition libStore : filesystem :=
  <[ ["include"; "old.inc"] := File "stale" ]>
    (<[ ["include"; "lib"] := Dir ]> {[ ["include"] := Dir ]}).

(** A store with the three files a compile leaves behind. *)
Definition stagedStore : filesystem :=
  <[ ["input.pwn"] := File "main() {}" ]>
    (<[ ["output.amx"] := File "AMX!" ]> {[ ["include"] := Dir ]}).

(** The character [c] does not occur in [s]. *)
Fixpoint lacks (c : ascii) (s : string) : bool :=
  match s with
  | EmptyString => true
  | String a s' => negb (Ascii.eqb a c) && lacks c s'
  end.

(** A store in which the input path is a directory and the output path
    a file, reached from a ready module through [addIncludeFile] alone. *)
Definition clutteredWrapper : wrapper :=
  fst (addIncludeFile
         (fst (addIncludeFile readyWrapper "../input.pwn/x" "y"))
         "../output.amx" "z").

(** Its store, written out. *)
Definition clutteredStore : filesystem :=
  <[ ["output.amx"] := File "z" ]>
    (<[ ["input.pwn"; "x"] := File "y" ]>
       (<[ ["input.pwn"] := Dir ]> {[ ["include"] := Dir ]})).

(** [c] is one of the characters a printed integer is made of. *)
Definition isDigitChar (c : ascii) : bool :=
  Ascii.eqb c "0" || Ascii.eqb c "1" || Ascii.eqb c "2" || Ascii.eqb c "3"
  || Ascii.eqb c "4" || Ascii.eqb c "5" || Ascii.eqb c "6" || Ascii.eqb c "7"
  || Ascii.eqb c "8" || Ascii.eqb c "9" || Ascii.eqb c "-".

(** The fixed head of the failure message of [pawncl_compile]. *)
Definition failedPrefix : string := "Compilation failed with error code: ".

(** One store holds no more than another. *)
Definition shrinks (fs' fs : filesystem) : Prop :=
  forall p, fs !! p = None -> fs' !! p = None.




(** A module instance whose filesystem already holds [/include] when it
    is created. *)
Definition preloaded : filesystem := {[ ["include"] := Dir ]}.

(** No call is loading and none has been resumed: every call made so
    far is pending or rejected, while a module instance is set and the
    ready flag is not. *)
Definition stuck (s : world) : Prop :=
  compilerModule (vars s) <> None
  /\ compilerReady (vars s) = false
  /\ forall id c, calls s !! id = Some c -> c = Pending \/ exists e, c = Rejected e.

(** Two calls overlap: the second enters while the first is loading. *)
Definition overlappingCalls : list event := [Call 0; Call 1].

(** The first load then fails and the second succeeds. *)
Definition firstFailsSecondLoads : list event :=
  overlappingCalls
  ++ [ImportSettled 0 None; ImportSettled 1 None;
      CreateSettled 0 (inr "load failed"); CreateSettled 1 (inl ∅)].

(** The first load fails when it creates the include directory, a third
    call enters, and the second load fails too. *)
Definition waiterLeftBehind : list event :=
  overlappingCalls
  ++ [ImportSettled 0 None; ImportSettled 1 None;
      CreateSettled 0 (inl preloaded); Call 2;
      CreateSettled 1 (inr "load failed")].

(** One call whose load fails when it creates the include directory. *)
Definition mkdirFails : list event :=
  [Call 0; ImportSettled 0 None; CreateSettled 0 (inl preloaded)].

(** ** Vocabulary for further properties *)

(** Every character of [s] satisfies [P]. *)
Fixpoint allChars (P : ascii -> bool) (s : string) : bool :=
  match s with
  | EmptyString => true
  | String c s' => P c && allChars P s'
  end.

(** The line of the success message of [pawncl_compile], without its
    line feed. *)
Definition successLine (amx_size : Z) : string :=
  String.append "Compilation successful! AMX file size: "
    (String.append (JS.numberToString amx_size) " bytes").

(** The line of the failure message, without its line feed. *)
Definition failedLine (result : Z) : string :=
  String.append failedPrefix (JS.numberToString result).

Definition notWhiteSpace (c : ascii) : bool := negb (JS.isWhiteSpace c).

(** [s] is empty or starts with a character that is not white space. *)
Definition headNotWhiteSpace (s : string) : bool :=
  match s with
  | EmptyString => true
  | String c _ => notWhiteSpace c
  end.

(** The store the compiler is started on: the module's store with the
    source written to the input path. *)
Definition stagedInputStore (fs : filesystem) (sourceCode : string) : filesystem :=
  <[PATH.resolve inputPath := File (cstr sourceCode)]> fs.

(** The argument vector [compile] makes [pawncl_compile] build. *)
Definition compilerArgs (options : CompilerOptions) : list string * nat :=
  buildArgv (Some (cstr (optionsString options))).

(** The call of the opaque compiler that [compile] leads to. *)
Definition callCompiler
    (pc_compile : nat -> list string -> filesystem -> pc_outcome)
    (fs : filesystem) (sourceCode : string) (options : CompilerOptions) : pc_outcome :=
  pc_compile (snd (compilerArgs options)) (fst (compilerArgs options))
    (stagedInputStore fs sourceCode).

(** A flag that survives the trip through the option string: it is not
    empty and holds neither a space nor a NUL. *)
Definition cleanFlag (flag : string) : bool :=
  negb (String.eqb flag EmptyString) && lacks " " flag && lacks zero flag.

(** A compiler that fails with code 1 and touches nothing. *)
Definition failingCompiler (argc : nat) (argv : list string) (fs : filesystem)
  : pc_outcome := PcReturn 1 fs.

(** A compiler that returns 0 without writing an artifact. *)
Definition silentCompiler (argc : nat) (argv : list string) (fs : filesystem)
  : pc_outcome := PcReturn 0 fs.

(** A ready wrapper that still holds the artifact of an earlier compile. *)
Definition compiledWrapper : wrapper := mkWrapper (Some stagedStore) true [].

(** Every node of the first store, except possibly the one at [p], is
    in the second store as it was. *)
Definition keepsOthers (p : list string) (fs fs' : filesystem) : Prop :=
  forall q n, q <> p -> FS.lookupNode fs q = Some n -> FS.lookupNode fs' q = Some n.

(** The resolved path [addIncludeFile] writes to. *)
Definition includeTarget (filename : string) : list string :=
  PATH.resolve (includePath filename).

(** ** Remote loading: [loadIncludeFiles]

    Every file name is fetched on its own; when a fetch has produced
    the text of the file, [addIncludeFile] is called with it.  The code
    between suspension points runs without interruption, so a run is
    given by the order in which the fetches complete.  [FetchFailed]
    stands for a fetch that threw, answered with a status that is not
    ok, or whose body could not be read. *)

Inductive fetchResult :=
| Fetched (content : string)
| FetchFailed.

(** The callback of one file name; the flag tells whether its promise
    is rejected. *)
Definition loadOne (w : wrapper) (filename : string) (r : fetchResult)
  : wrapper * bool :=
  match r with
  | FetchFailed => (w, true)
  | Fetched content =>
      match addIncludeFile w filename content with
      | (w', Return _) => (w', false)
      | (w', Throw _) => (w', true)
      end
  end.

(** [loadIncludeFiles]: the state after all promises have settled, and
    the number of rejected ones that the final warning reports.  The
    function itself never throws. *)
Fixpoint loadIncludeFiles (w : wrapper) (arrivals : list (string * fetchResult))
  : wrapper * nat :=
  match arrivals with
  | [] => (w, 0%nat)
  | (filename, r) :: rest =>
      let (w1, rejected) := loadOne w filename r in
      let (w2, failed) := loadIncludeFiles w1 rest in
      (w2, ((if rejected then 1 else 0) + failed)%nat)
  end.

(** The position of a lifecycle state in the order Uninitialized,
    Initializing, Ready. *)
Definition rank (m : ModuleState) : nat :=
  match m with
  | Uninitialized => 0
  | Initializing => 1
  | Ready => 2
  end.

(** The queue and the record of resumed callers agree with the states
    of the calls. *)
Definition queueInvariant (s : world) : Prop :=
  NoDup (resolved s ++ readyCallbacks (vars s))
  /\ (forall id, id ∈ readyCallbacks (vars s) <-> calls s !! id = Some Pending)
  /\ (forall id, id ∈ resolved s -> calls s !! id = Some Fulfilled)
  /\ (compilerReady (vars s) = true -> readyCallbacks (vars s) = []).

(** A file name for the top level of the include directory: no slash,
    and not empty, [.] or [..]. *)
Definition plainName (filename : string) : bool :=
  lacks "/" filename
  && negb (String.eqb filename EmptyString)
  && negb (String.eqb filename ".")
  && negb (String.eqb filename "..").

(** A call, the import and the creation of the module instance [fs],
    one after the other. *)
Definition loadEvents (id : nat) (fs : filesystem) : list event :=
  [Call id; ImportSettled id None; CreateSettled id (inl fs)].

(** Two overlapping calls, of which the first has finished loading the
    module instance [fs] and the second still awaits its own. *)
Definition firstLoaded (fs : filesystem) : list event :=
  [Call 0; Call 1; ImportSettled 0 None; ImportSettled 1 None;
   CreateSettled 0 (inl fs)].

(** * Properties *)

(** ** The diagnostic parser *)

Lemma parseLine_errors v line :
  v_errors (parseLine v line) =
  v_errors v ++ (if isErrorLine line then [JS.trim line] else []).
Proof.
  unfold parseLine, extractWarning, extractError, detectSuccess, isErrorLine.
  destruct (JS.includes line successMarker);
    destruct (JS.includes line "error" && JS.includes line ":");
    destruct (JS.includes line "warning" && JS.includes line ":");
    simpl; rewrite ?app_nil_r; reflexivity.
Qed.

Lemma parseLine_warnings v line :
  v_warnings (parseLine v line) =
  v_warnings v ++ (if isWarningLine line then [JS.trim line] else []).
Proof.
  unfold parseLine, extractWarning, extractError, detectSuccess, isWarningLine.
  destruct (JS.includes line successMarker);
    destruct (JS.includes line "error" && JS.includes line ":");
    destruct (JS.includes line "warning" && JS.includes line ":");
    simpl; rewrite ?app_nil_r; reflexivity.
Qed.

Lemma parseLine_success v line :
  v_success (parseLine v line) = v_success v || hasMarker line.
Proof.
  unfold parseLine, extractWarning, extractError, detectSuccess, hasMarker.
  destruct (JS.includes line successMarker);
    destruct (JS.includes line "error" && JS.includes line ":");
    destruct (JS.includes line "warning" && JS.includes line ":");
    simpl; rewrite ?orb_true_r, ?orb_false_r; reflexivity.
Qed.

Lemma parseLine_amxSize v line :
  v_amxSize (parseLine v line) =
  if hasMarker line
  then match matchSize line with
       | Some d => Some (JS.parseInt d)
       | None => v_amxSize v
       end
  else v_amxSize v.
Proof.
  unfold parseLine, extractWarning, extractError, detectSuccess, hasMarker.
  destruct (JS.includes line successMarker);
    destruct (JS.includes line "error" && JS.includes line ":");
    destruct (JS.includes line "warning" && JS.includes line ":");
    reflexivity.
Qed.

Lemma fold_parseLine_errors lines : forall v,
  v_errors (fold_left parseLine lines v) =
  v_errors v ++ List.map JS.trim (List.filter isErrorLine lines).
Proof.
  induction lines as [|l ls IH]; intros v; simpl.
  - now rewrite app_nil_r.
  - rewrite IH, parseLine_errors.
    destruct (isErrorLine l); simpl.
    + now rewrite <- app_assoc.
    + now rewrite app_nil_r.
Qed.

Lemma fold_parseLine_warnings lines : forall v,
  v_warnings (fold_left parseLine lines v) =
  v_warnings v ++ List.map JS.trim (List.filter isWarningLine lines).
Proof.
  induction lines as [|l ls IH]; intros v; simpl.
  - now rewrite app_nil_r.
  - rewrite IH, parseLine_warnings.
    destruct (isWarningLine l); simpl.
    + now rewrite <- app_assoc.
    + now rewrite app_nil_r.
Qed.

Lemma fold_parseLine_success lines : forall v,
  v_success (fold_left parseLine lines v) =
  v_success v || existsb hasMarker lines.
Proof.
  induction lines as [|l ls IH]; intros v; simpl.
  - now rewrite orb_false_r.
  - rewrite IH, parseLine_success. now rewrite orb_assoc.
Qed.





Lemma trim_exampleErrorLine : JS.trim exampleErrorLine = exampleErrorLine.
Proof. reflexivity. Qed.

(** C6, as the claim states it, fails: a line with both substrings is
    not itself appended when it starts with white space. *)
Lemma parse_errors_not_verbatim :
  let out := "  x.pwn(1) : error 001: expected token" in
  In out (JS.split LF out)
  /\ JS.includes out "error" = true
  /\ JS.includes out ":" = true
  /\ ~ In out (errors (parseCompilerOutput out)).
Proof.
  simpl. repeat split; try reflexivity.
  - left. reflexivity.
  - intros [H | []]. discriminate H.
Qed.

(** C6, amended.  The errors are the trimmed lines that contain both
    "error" and ":", in line order; the warnings are the trimmed lines
    that contain both "warning" and ":", in line order (a line can be in
    both); success is whether some line contains the success marker, so
    it is false without one, even when there are no errors.  When the
    line "input.pwn(3) : error 017: undefined symbol" is one of the
    lines and no line has the marker, success is false and that line is
    in the errors as it is. *)
Theorem parse_classification (out : string) :
  errors (parseCompilerOutput out)
    = List.map JS.trim (List.filter isErrorLine (JS.split LF out))
  /\ warnings (parseCompilerOutput out)
    = List.map JS.trim (List.filter isWarningLine (JS.split LF out))
  /\ success (parseCompilerOutput out) = existsb hasMarker (JS.split LF out)
  /\ (In exampleErrorLine (JS.split LF out) ->
      existsb hasMarker (JS.split LF out) = false ->
      success (parseCompilerOutput out) = false
      /\ In exampleErrorLine (errors (parseCompilerOutput out))).
Proof.
  unfold parseCompilerOutput; simpl.
  rewrite fold_parseLine_errors, fold_parseLine_warnings, fold_parseLine_success.
  simpl. repeat split; try reflexivity.
  - assumption.
  - rewrite <- trim_exampleErrorLine. apply in_map.
    apply filter_In. split; [assumption | reflexivity].
Qed.

(** The example of C6 at an output of two lines. *)
Lemma parse_classification_witness :
  let out := String.append "input.pwn(3) : error 017: undefined symbol"
               (String.append NL "1 Error.") in
  success (parseCompilerOutput out) = false
  /\ In exampleErrorLine (errors (parseCompilerOutput out)).
Proof.
  intros out.
  destruct (parse_classification out) as [_ [_ [_ H]]].
  apply H.
  - simpl. left. reflexivity.
  - reflexivity.
Defined.

(** ** The option marshaler *)

(** C4.  The flag array is the optimization flag if the level is
    present, then the debug flag if the level is present, then the
    include-directory flag, then the additional flags in the caller's
    order; the option string joins them with single spaces; the input
    path occurs among the flags only if the caller put it among the
    additional flags; and levels 2 and 3 with the one additional flag
    "-Z+" give "-O2 -d3 -i/include -Z+". *)
Theorem marshal_order (options : CompilerOptions) :
  optionsArray options
    = (match optimizationLevel options with
       | Some n => [String.append "-O" (JS.numberToString n)]
       | None => []
       end)
      ++ (match debugLevel options with
          | Some n => [String.append "-d" (JS.numberToString n)]
          | None => []
          end)
      ++ ["-i/include"]
      ++ (match additionalFlags options with
          | Some flags => flags
          | None => []
          end)
  /\ optionsString options = JS.join " " (optionsArray options)
  /\ existsb (String.eqb inputPath) (optionsArray options)
     = existsb (String.eqb inputPath)
         (match additionalFlags options with
          | Some flags => flags
          | None => []
          end)
  /\ optionsString (mkOptions (Some 2%Z) (Some 3%Z) (Some ["-Z+"]))
     = "-O2 -d3 -i/include -Z+".
Proof.
  assert (Harr : optionsArray options
    = (match optimizationLevel options with
       | Some n => [String.append "-O" (JS.numberToString n)]
       | None => []
       end)
      ++ (match debugLevel options with
          | Some n => [String.append "-d" (JS.numberToString n)]
          | None => []
          end)
      ++ ["-i/include"]
      ++ (match additionalFlags options with
          | Some flags => flags
          | None => []
          end)).
  { unfold optionsArray.
    destruct (optimizationLevel options), (debugLevel options),
      (additionalFlags options); simpl; rewrite ?app_nil_r; reflexivity. }
  split; [exact Harr|]. split; [reflexivity|]. split; [|reflexivity].
  rewrite Harr.
  destruct (optimizationLevel options), (debugLevel options); simpl; reflexivity.
Qed.

(** ** The argument vector of [pawncl_compile] *)

Lemma tokenLoop_firstn tokens : forall argv argc,
  (argc <= 30)%nat ->
  tokenLoop tokens argv argc
  = (argv ++ firstn (30 - argc) tokens,
     (argc + Nat.min (30 - argc) (length tokens))%nat).
Proof.
  induction tokens as [|t ts IH]; intros argv argc Hle.
  - simpl. rewrite firstn_nil, app_nil_r. f_equal. lia.
  - simpl tokenLoop. destruct (argc <? 30)%nat eqn:Hlt.
    + apply Nat.ltb_lt in Hlt. rewrite IH by lia.
      replace (30 - argc)%nat with (S (30 - S argc)) by lia.
      simpl. rewrite <- app_assoc. simpl. f_equal. lia.
    + apply Nat.ltb_ge in Hlt. replace (30 - argc)%nat with 0%nat by lia.
      simpl. rewrite app_nil_r. f_equal. lia.
Qed.

(** C10.  The argument vector is the program name, the output-path
    flag, the first 28 tokens of the option string (the fields between
    spaces) and the input path, in that order; its length is at most 31,
    so it fits the 32-entry array with its terminating NULL; tokens after
    the 28th are not in it.  With 29 flags the 28th is passed and the
    29th is not. *)
Theorem argv_takes_28_tokens (options : option string) :
  let tokens := match options with Some o => strtok o | None => [] end in
  buildArgv options
    = (["pawncc"; "-o/output.amx"] ++ firstn 28 tokens ++ ["/input.pwn"],
       (3 + Nat.min 28 (length tokens))%nat)
  /\ (length (firstn 28 tokens) <= 28)%nat
  /\ (snd (buildArgv options) <= 31)%nat
  /\ List.last (fst (buildArgv options)) EmptyString = "/input.pwn"
  /\ existsb (String.eqb "-f28") (fst (buildArgv (Some (JS.join " " manyFlags)))) = true
  /\ existsb (String.eqb "-f29") (fst (buildArgv (Some (JS.join " " manyFlags)))) = false.
Proof.
  intros tokens.
  assert (Heq : buildArgv options
    = (["pawncc"; "-o/output.amx"] ++ firstn 28 tokens ++ ["/input.pwn"],
       (3 + Nat.min 28 (length tokens))%nat)).
  { unfold buildArgv, tokens. destruct options as [o|]; [|reflexivity].
    destruct (0 <? String.length o)%nat eqn:Hlen.
    - rewrite tokenLoop_firstn by lia. simpl. reflexivity.
    - apply Nat.ltb_ge in Hlen. destruct o; [reflexivity | simpl in Hlen; lia]. }
  split; [exact Heq|]. rewrite Heq. cbn [fst snd].
  split; [rewrite length_firstn; apply Nat.le_min_l|].
  split; [pose proof (Nat.le_min_l 28 (length tokens)); lia|].
  split; [|split; reflexivity].
  change (["pawncc"; "-o/output.amx"] ++ firstn 28 tokens ++ ["/input.pwn"])
    with (("pawncc" :: "-o/output.amx" :: firstn 28 tokens) ++ ["/input.pwn"]).
  apply List.last_last.
Qed.

(** ** The invocation bridge *)

Lemma isReady_moduleState w :
  wellFormed w -> (isReady w = true <-> moduleState w = Ready).
Proof.
  unfold wellFormed, isReady, moduleState. intros Hwf.
  destruct (compilerReady w).
  - destruct (compilerModule w).
    + split; reflexivity.
    + exfalso. now apply Hwf.
  - destruct (compilerModule w); split; discriminate.
Qed.

Section CompileProperties.

Variable pc_compile : nat -> list string -> filesystem -> pc_outcome.

Lemma compile_not_ready w src opts :
  isReady w = false ->
  compile pc_compile w src opts = (w, Throw (JsError notInitialized)).
Proof.
  unfold isReady, compile.
  destruct (compilerReady w), (compilerModule w); simpl; intros H;
    try discriminate; reflexivity.
Qed.

Lemma compile_ready w src opts :
  isReady w = true ->
  exists w' r, compile pc_compile w src opts = (w', Return r).
Proof.
  unfold isReady, compile.
  destruct (compilerReady w), (compilerModule w) as [fs|]; simpl; intros H;
    try discriminate.
  destruct (pawncl_compile pc_compile fs (cstr src) (Some (cstr (optionsString opts))));
    eauto.
Qed.

End CompileProperties.

(** C3.  In a state of the wrapper in which the ready flag comes with a
    module instance (every state the wrapper reaches), [compile] throws
    exactly when the lifecycle state is not Ready, and what it throws is
    the initialization-required error; when the state is Ready it
    returns a result, and when the call across the boundary fails with
    some text, the result has success false, that text as output and as
    the only error, and no warnings. *)
Theorem compile_throws_iff_not_ready
    (pc_compile : nat -> list string -> filesystem -> pc_outcome)
    (w : wrapper) (src : string) (opts : CompilerOptions)
    (Hwf : wellFormed w) :
  ((exists e, snd (compile pc_compile w src opts) = Throw e)
   <-> moduleState w <> Ready)
  /\ (forall e, snd (compile pc_compile w src opts) = Throw e ->
                e = JsError notInitialized)
  /\ (moduleState w = Ready ->
      exists r, snd (compile pc_compile w src opts) = Return r)
  /\ (forall fs error fs',
        moduleState w = Ready ->
        compilerModule w = Some fs ->
        pawncl_compile pc_compile fs (cstr src) (Some (cstr (optionsString opts)))
          = CTrap error fs' ->
        snd (compile pc_compile w src opts)
          = Return (mkResult false error [error] [] None)).
Proof.
  pose proof (isReady_moduleState w Hwf) as Hiff.
  destruct (isReady w) eqn:Hr.
  - destruct (compile_ready pc_compile w src opts Hr) as [w' [r Hc]].
    assert (Hst : moduleState w = Ready) by now apply Hiff.
    rewrite Hc. cbn [snd]. repeat split.
    + intros [e He]. discriminate He.
    + intros H. contradiction.
    + intros e He. discriminate He.
    + intros _. eauto.
    + intros fs error fs' _ Hmod Htrap.
      unfold compile in Hc. unfold isReady in Hr.
      destruct (compilerReady w); [|discriminate Hr].
      rewrite Hmod, Htrap in Hc. inversion Hc. reflexivity.
  - assert (Hst : moduleState w <> Ready).
    { intros H. apply Hiff in H. discriminate H. }
    rewrite (compile_not_ready pc_compile w src opts Hr). cbn [snd]. repeat split.
    + intros _. exact Hst.
    + intros _. eauto.
    + intros e He. inversion He. reflexivity.
    + intros H. contradiction.
    + intros fs error fs' H. contradiction.
Qed.

(** C3 at a ready wrapper whose compiler traps, at a ready wrapper
    whose compiler works, and at the wrapper before initialization. *)
Lemma compile_throws_iff_not_ready_witness :
  wellFormed readyWrapper
  /\ wellFormed initialWrapper
  /\ snd (compile trappingCompiler readyWrapper "main() {}"
            (mkOptions (Some 2%Z) None None))
     = Return (mkResult false "RuntimeError: unreachable"
                 ["RuntimeError: unreachable"] [] None)
  /\ (exists r, snd (compile workingCompiler readyWrapper "main() {}"
                       (mkOptions None None None)) = Return r)
  /\ snd (compile trappingCompiler initialWrapper "main() {}"
            (mkOptions None None None))
     = Throw (JsError notInitialized).
Proof.
  assert (Hready : wellFormed readyWrapper) by (intros _; discriminate).
  assert (Hinit : wellFormed initialWrapper) by (intros H; discriminate H).
  split; [exact Hready|]. split; [exact Hinit|]. split; [|split].
  - destruct (compile_throws_iff_not_ready trappingCompiler readyWrapper
                "main() {}" (mkOptions (Some 2%Z) None None) Hready)
      as [_ [_ [_ H]]].
    apply (H {[ ["include"] := Dir ]} "RuntimeError: unreachable"
             (<[PATH.resolve inputPath := File "main() {}"]> {[ ["include"] := Dir ]}));
      reflexivity.
  - destruct (compile_throws_iff_not_ready workingCompiler readyWrapper
                "main() {}" (mkOptions None None None) Hready)
      as [_ [_ [H _]]].
    apply H. reflexivity.
  - destruct (compile_throws_iff_not_ready trappingCompiler initialWrapper
                "main() {}" (mkOptions None None None) Hinit)
      as [[_ H] [Hwhat _]].
    destruct (H ltac:(discriminate)) as [e He]. rewrite He. f_equal.
    apply Hwhat. exact He.
Defined.

(** ** Messages of the C entry point and the success flag *)

Lemma append_cons c s t :
  String.append (String c s) t = String c (String.append s t).
Proof. reflexivity. Qed.

Lemma lacks_uint c (d : Decimal.uint) :
  isDigitChar c = false -> lacks c (NilEmpty.string_of_uint d) = true.
Proof.
  unfold isDigitChar. intros Hc.
  induction d; cbn [NilEmpty.string_of_uint lacks]; [reflexivity | ..];
    rewrite IHd, andb_true_r; apply negb_true_iff;
    destruct (Ascii.eqb_spec c "0"), (Ascii.eqb_spec c "1"), (Ascii.eqb_spec c "2"),
      (Ascii.eqb_spec c "3"), (Ascii.eqb_spec c "4"), (Ascii.eqb_spec c "5"),
      (Ascii.eqb_spec c "6"), (Ascii.eqb_spec c "7"), (Ascii.eqb_spec c "8"),
      (Ascii.eqb_spec c "9"); try discriminate Hc;
    apply Ascii.eqb_neq; congruence.
Qed.

Lemma lacks_numberToString c (n : Z) :
  isDigitChar c = false -> lacks c (JS.numberToString n) = true.
Proof.
  intros Hc. pose proof (lacks_uint c) as Hu.
  assert (Hminus : Ascii.eqb "-" c = false).
  { unfold isDigitChar in Hc. rewrite Ascii.eqb_sym.
    destruct (Ascii.eqb c "-"); [|reflexivity].
    now rewrite !orb_true_r in Hc. }
  assert (Hzero : Ascii.eqb "0" c = false).
  { unfold isDigitChar in Hc. rewrite Ascii.eqb_sym.
    destruct (Ascii.eqb c "0"); [|reflexivity]. discriminate Hc. }
  unfold JS.numberToString, NilZero.string_of_int, NilZero.string_of_uint.
  destruct (Z.to_int n) as [d|d]; destruct d; cbn [lacks];
    rewrite ?Hminus, ?Hzero; cbn [negb andb]; auto.
Qed.

Lemma includes_cons c s needle :
  JS.includes (String c s) needle
  = JS.startsWith needle (String c s) || JS.includes s needle.
Proof. reflexivity. Qed.

Lemma includes_lacks_C s : lacks "C" s = true -> JS.includes s successMarker = false.
Proof.
  induction s as [|c s IH]; [reflexivity|].
  cbn [lacks]. intros H. apply andb_prop in H as [Hc Hs].
  rewrite includes_cons, (IH Hs), orb_false_r.
  apply negb_true_iff in Hc. rewrite Ascii.eqb_sym in Hc.
  unfold successMarker. cbn [JS.startsWith]. now rewrite Hc.
Qed.

Lemma split_lacks_LF s : lacks LF s = true -> JS.split LF s = [s].
Proof.
  induction s as [|c s IH]; [reflexivity|].
  cbn [lacks]. intros H. apply andb_prop in H as [Hc Hs].
  apply negb_true_iff in Hc. cbn [JS.split]. now rewrite Hc, (IH Hs).
Qed.

Lemma split_append_LF s t :
  lacks LF s = true ->
  JS.split LF (String.append s (String LF t)) = s :: JS.split LF t.
Proof.
  induction s as [|c s IH]; [reflexivity|].
  cbn [lacks]. intros H. apply andb_prop in H as [Hc Hs].
  apply negb_true_iff in Hc.
  rewrite append_cons. cbn [JS.split]. now rewrite Hc, (IH Hs).
Qed.

Lemma lacks_append c s t :
  lacks c (String.append s t) = lacks c s && lacks c t.
Proof.
  induction s as [|a s IH]; [reflexivity|].
  rewrite append_cons. cbn [lacks]. now rewrite IH, andb_assoc.
Qed.

Lemma msgFailed_lines (result : Z) :
  JS.split LF (msgFailed result)
  = [String.append failedPrefix (JS.numberToString result); EmptyString].
Proof.
  unfold msgFailed, NL.
  assert (Happ : forall a b c : string,
    String.append a (String.append b c) = String.append (String.append a b) c).
  { intros a b c. induction a as [|x a IH]; [reflexivity|].
    now rewrite !append_cons, IH. }
  rewrite Happ. rewrite split_append_LF; [reflexivity|].
  rewrite lacks_append.
  rewrite (lacks_numberToString LF result) by reflexivity.
  reflexivity.
Qed.

Lemma includes_failedPrefix t :
  JS.includes (String.append failedPrefix t) successMarker
  = JS.includes t successMarker.
Proof. reflexivity. Qed.


(** ** Artifact retrieval *)

Lemma setFS_module w fs : compilerModule (setFS w fs) = Some fs.
Proof. reflexivity. Qed.

Lemma setFS_same w fs : compilerModule w = Some fs -> setFS w fs = w.
Proof. destruct w as [m r q]. simpl. intros ->. reflexivity. Qed.

Lemma exists_lookupNode fs path :
  FS.exists_ fs path = true <-> FS.lookupNode fs (PATH.resolve path) <> None.
Proof.
  unfold FS.exists_. destruct (FS.lookupNode fs (PATH.resolve path)).
  - split; [discriminate | reflexivity].
  - split; [discriminate | congruence].
Qed.

Lemma getCompiledAMX_module w fs :
  compilerModule w = Some fs ->
  getCompiledAMX w
  = Return (match FS.lookupNode fs (PATH.resolve outputPath) with
            | Some (File bytes) => Some bytes
            | _ => None
            end).
Proof.
  intros Hm. unfold getCompiledAMX, FS.exists_, FS.readFile. rewrite Hm.
  destruct (FS.lookupNode fs (PATH.resolve outputPath)) as [[bytes|]|]; reflexivity.
Qed.

Section ArtifactAfterCompile.

Variable pc_compile : nat -> list string -> filesystem -> pc_outcome.


End ArtifactAfterCompile.




(** ** Cleanup *)

Lemma shrinks_refl fs : shrinks fs fs.
Proof. intros p H. exact H. Qed.

Lemma shrinks_trans fs1 fs2 fs3 : shrinks fs1 fs2 -> shrinks fs2 fs3 -> shrinks fs1 fs3.
Proof. intros H12 H23 p H. apply H12, H23, H. Qed.

Lemma shrinks_delete (fs : filesystem) p : shrinks (delete p fs) fs.
Proof.
  intros q H. destruct (decide (p = q)) as [->|Hne].
  - apply lookup_delete_eq.
  - rewrite lookup_delete_ne by exact Hne. exact H.
Qed.

Lemma exists_shrinks fs' fs path :
  shrinks fs' fs -> FS.exists_ fs path = false -> FS.exists_ fs' path = false.
Proof.
  unfold FS.exists_, FS.lookupNode. intros Hs.
  destruct (PATH.resolve path) as [|a p]; [discriminate|].
  destruct (fs !! (a :: p)) eqn:Hl; [discriminate|].
  intros _. now rewrite (Hs _ Hl).
Qed.

Lemma unlink_inl fs path fs' :
  FS.unlink fs path = inl fs' ->
  fs' = delete (PATH.resolve path) fs /\ FS.exists_ fs' path = false.
Proof.
  unfold FS.unlink, FS.exists_, FS.lookupNode.
  destruct (PATH.resolve path) as [|a p] eqn:Hp; [discriminate|].
  destruct (fs !! (a :: p)) as [[c|]|]; try discriminate.
  intros H. inversion H; subst. split; [reflexivity|].
  now rewrite lookup_delete_eq.
Qed.

Lemma cleanupLoop_shrinks files : forall fs fs' r,
  cleanupLoop fs files = (fs', r) -> shrinks fs' fs.
Proof.
  induction files as [|file rest IH]; intros fs fs' r; cbn [cleanupLoop].
  - intros H. inversion H; subst. apply shrinks_refl.
  - destruct (FS.exists_ fs file).
    + destruct (FS.unlink fs file) as [fs1|e] eqn:Hu.
      * intros H. apply unlink_inl in Hu as [-> _].
        eapply shrinks_trans; [eapply IH, H | apply shrinks_delete].
      * intros H. inversion H; subst. apply shrinks_refl.
    + apply IH.
Qed.


(** Without a failure every path of the list is gone afterwards. *)
Lemma cleanupLoop_clean files : forall fs fs',
  cleanupLoop fs files = (fs', None) ->
  Forall (fun file => FS.exists_ fs' file = false) files.
Proof.
  induction files as [|file rest IH]; intros fs fs'; cbn [cleanupLoop].
  - constructor.
  - destruct (FS.exists_ fs file) eqn:He.
    + destruct (FS.unlink fs file) as [fs1|e] eqn:Hu; [|discriminate].
      intros H. constructor; [|eapply IH, H].
      apply unlink_inl in Hu as [_ Hgone].
      exact (exists_shrinks _ _ _ (cleanupLoop_shrinks _ _ _ _ H) Hgone).
    + intros H. constructor; [|eapply IH, H].
      exact (exists_shrinks _ _ _ (cleanupLoop_shrinks _ _ _ _ H) He).
Qed.





(** ** The include store *)

Lemma split_nonempty sep s : JS.split sep s <> [].
Proof.
  destruct s as [|c s]; cbn [JS.split]; [discriminate|].
  destruct (Ascii.eqb c sep); [discriminate|].
  destruct (JS.split sep s); discriminate.
Qed.

Lemma dirname_neq (p : list string) : p <> [] -> PATH.dirname p <> p.
Proof.
  intros Hp Heq. unfold PATH.dirname in Heq.
  destruct (exists_last Hp) as [q [a Hq]]. subst p.
  rewrite removelast_last in Heq.
  apply (f_equal (@length string)) in Heq. rewrite length_app in Heq.
  simpl in Heq. lia.
Qed.

Lemma lookupNode_insert_eq (fs : filesystem) p n :
  p <> [] -> FS.lookupNode (<[p := n]> fs) p = Some n.
Proof.
  intros Hp. unfold FS.lookupNode. destruct p; [congruence|].
  apply lookup_insert_eq.
Qed.

Lemma lookupNode_insert_ne (fs : filesystem) p q n :
  p <> q -> FS.lookupNode (<[p := n]> fs) q = FS.lookupNode fs q.
Proof.
  intros Hne. unfold FS.lookupNode. destruct q; [reflexivity|].
  now apply lookup_insert_ne.
Qed.

Lemma lookupNode_delete_ne (fs : filesystem) p q :
  p <> q -> FS.lookupNode (delete p fs) q = FS.lookupNode fs q.
Proof.
  intros Hne. unfold FS.lookupNode. destruct q; [reflexivity|].
  now apply lookup_delete_ne.
Qed.

Lemma lookupNode_delete_eq (fs : filesystem) p :
  p <> [] -> FS.lookupNode (delete p fs) p = None.
Proof.
  intros Hp. unfold FS.lookupNode. destruct p; [congruence|].
  apply lookup_delete_eq.
Qed.

Lemma lookupNode_file_nonroot fs p c : FS.lookupNode fs p = Some (File c) -> p <> [].
Proof. intros H ->. discriminate H. Qed.

Lemma lookupNode_none_nonroot fs p : FS.lookupNode fs p = None -> p <> [].
Proof. intros H ->. discriminate H. Qed.








(** One iteration of the directory loop, by the outcome of [FS.mkdir]. *)
Lemma mkdirLoop_created fs base part rest fs' :
  FS.mkdir fs (String.append base (String.append "/" part)) = inl fs' ->
  mkdirLoop fs base (part :: rest)
  = mkdirLoop fs' (String.append base (String.append "/" part)) rest.
Proof. intros H. cbn [mkdirLoop]. now rewrite H. Qed.




(** The replace step: on success the target holds the new content, the
    rest of the store is as before, and the target's directory is a
    directory. *)
Lemma replaceFile_ok fs path content fs' u :
  replaceFile fs path content = (fs', Return u) ->
  PATH.resolve path <> []
  /\ fs' = <[PATH.resolve path := File content]> fs
  /\ FS.lookupNode fs (PATH.dirname (PATH.resolve path)) = Some Dir
  /\ FS.lookupNode fs (PATH.resolve path) <> Some Dir.
Proof.
  unfold replaceFile, FS.exists_, FS.unlink, FS.writeFile, FS.mayCreate.
  set (p := PATH.resolve path).
  destruct (FS.lookupNode fs p) as [[c|]|] eqn:Hl.
  - pose proof (lookupNode_file_nonroot _ _ _ Hl) as Hp.
    rewrite (lookupNode_delete_eq fs p Hp).
    rewrite (lookupNode_delete_ne fs p (PATH.dirname p))
      by (intros Heq; symmetry in Heq; exact (dirname_neq p Hp Heq)).
    destruct (FS.lookupNode fs (PATH.dirname p)) as [[c'|]|]; try discriminate.
    intros H. inversion H; subst.
    repeat split; try assumption; try discriminate.
    apply insert_delete_eq.
  - discriminate.
  - pose proof (lookupNode_none_nonroot _ _ Hl) as Hp.
    rewrite Hl.
    destruct (FS.lookupNode fs (PATH.dirname p)) as [[c'|]|]; try discriminate.
    intros H. inversion H; subst.
    repeat split; try assumption; discriminate.
Qed.

Lemma replaceFile_file fs path content c :
  FS.lookupNode fs (PATH.resolve path) = Some (File c) ->
  FS.lookupNode fs (PATH.dirname (PATH.resolve path)) = Some Dir ->
  replaceFile fs path content
  = (<[PATH.resolve path := File content]> fs, Return tt).
Proof.
  intros Hl Hd.
  unfold replaceFile, FS.exists_, FS.unlink, FS.writeFile, FS.mayCreate.
  set (p := PATH.resolve path) in *.
  pose proof (lookupNode_file_nonroot _ _ _ Hl) as Hp.
  rewrite Hl.
  rewrite (lookupNode_delete_eq fs p Hp).
  rewrite (lookupNode_delete_ne fs p (PATH.dirname p))
    by (intros Heq; symmetry in Heq; exact (dirname_neq p Hp Heq)).
  rewrite Hd. now rewrite insert_delete_eq.
Qed.


Lemma addIncludeFile_unfold w fs filename content :
  compilerModule w = Some fs ->
  addIncludeFile w filename content
  = match mkdirLoop fs "/include" (removelast (JS.split "/" filename)) with
    | (fs1, Throw e) => (setFS w fs1, Throw e)
    | (fs1, Return _) =>
        let (fs2, c) := replaceFile fs1 (includePath filename) content in
        (setFS w fs2, c)
    end.
Proof.
  intros Hm. unfold addIncludeFile. rewrite Hm.
  destruct (1 <? length (JS.split "/" filename))%nat eqn:Hlen; [reflexivity|].
  apply Nat.ltb_ge in Hlen.
  pose proof (split_nonempty "/" filename) as Hne.
  destruct (JS.split "/" filename) as [|a [|b l]]; [congruence | reflexivity |].
  simpl in Hlen. lia.
Qed.

(** What a successful [addIncludeFile] leaves behind. *)
Lemma addIncludeFile_ok w filename content w' u :
  addIncludeFile w filename content = (w', Return u) ->
  exists fs fs1,
    compilerModule w = Some fs
    /\ mkdirLoop fs "/include" (removelast (JS.split "/" filename)) = (fs1, Return tt)
    /\ w' = setFS w (<[PATH.resolve (includePath filename) := File content]> fs1)
    /\ PATH.resolve (includePath filename) <> []
    /\ FS.lookupNode fs1 (PATH.dirname (PATH.resolve (includePath filename))) = Some Dir
    /\ FS.lookupNode fs1 (PATH.resolve (includePath filename)) <> Some Dir.
Proof.
  destruct (compilerModule w) as [fs|] eqn:Hm.
  - rewrite (addIncludeFile_unfold w fs filename content Hm).
    destruct (mkdirLoop fs "/include" (removelast (JS.split "/" filename)))
      as [fs1 [[]|e]] eqn:Hloop; [|discriminate].
    destruct (replaceFile fs1 (includePath filename) content) as [fs2 c] eqn:Hrep.
    intros H. inversion H; subst.
    apply replaceFile_ok in Hrep as [Hp [-> [Hd Hnd]]].
    exists fs, fs1. repeat split; assumption.
  - unfold addIncludeFile. rewrite Hm. discriminate.
Qed.



(** ** The lifecycle manager *)

Lemma run_app s evs1 evs2 : run s (evs1 ++ evs2) = run (run s evs1) evs2.
Proof. unfold run. apply fold_left_app. Qed.

Lemma run_cons s ev evs : run s (ev :: evs) = run (step s ev) evs.
Proof. reflexivity. Qed.

(** The ready flag is only ever set together with a module instance:
    every event, and every operation of the wrapper, keeps the wrapper
    well formed. *)
Lemma wellFormed_initial : wellFormed initialWrapper.
Proof. intros H. discriminate H. Qed.

Lemma wellFormed_setFS w fs : wellFormed (setFS w fs).
Proof. intros _. discriminate. Qed.

Lemma addIncludeFile_wellFormed w filename content :
  wellFormed w -> wellFormed (fst (addIncludeFile w filename content)).
Proof.
  intros Hwf. unfold addIncludeFile.
  destruct (compilerModule w) as [fs|]; [|exact Hwf].
  destruct (if (1 <? length (JS.split "/" filename))%nat
            then mkdirLoop fs "/include" (removelast (JS.split "/" filename))
            else (fs, Return tt)) as [fs1 [u|e]].
  - destruct (replaceFile fs1 (includePath filename) content).
    apply wellFormed_setFS.
  - apply wellFormed_setFS.
Qed.

Lemma cleanup_wellFormed w : wellFormed w -> wellFormed (fst (cleanup w)).
Proof.
  intros Hwf. unfold cleanup.
  destruct (compilerModule w) as [fs|]; [|exact Hwf].
  destruct (cleanupLoop fs cleanupFiles). apply wellFormed_setFS.
Qed.

Lemma compile_wellFormed pc_compile w src opts :
  wellFormed w -> wellFormed (fst (compile pc_compile w src opts)).
Proof.
  intros Hwf. unfold compile.
  destruct (compilerReady w); [|exact Hwf].
  destruct (compilerModule w) as [fs|]; [|exact Hwf].
  destruct (pawncl_compile pc_compile fs (cstr src) (Some (cstr (optionsString opts))));
    apply wellFormed_setFS.
Qed.

Lemma step_ready_module s ev :
  wellFormed (vars s) -> wellFormed (vars (step s ev)).
Proof.
  unfold wellFormed. intros Inv. destruct ev as [id | id failure | id result]; cbn [step].
  - destruct (calls s !! id); [exact Inv|].
    unfold initEnter. destruct (compilerReady (vars s)) eqn:Hr.
    + intros _. apply Inv. reflexivity.
    + destruct (compilerModule (vars s)); cbn; intros H;
        [discriminate | congruence].
  - destruct (calls s !! id) as [[]|]; try exact Inv.
    destruct failure; exact Inv.
  - destruct (calls s !! id) as [[]|]; try exact Inv.
    destruct result as [fs|error]; [|exact Inv].
    unfold initFinish. destruct (FS.mkdir fs "/include"); cbn; discriminate.
Qed.

Lemma run_ready_module evs : forall s,
  wellFormed (vars s) -> wellFormed (vars (run s evs)).
Proof.
  induction evs as [|ev evs IH]; intros s Inv; [exact Inv|].
  rewrite run_cons. apply IH. now apply step_ready_module.
Qed.

(** A call that enters while a module instance is set and the ready
    flag is not joins the end of the queue and is left pending. *)
Lemma initEnter_enqueues s id fs :
  compilerReady (vars s) = false ->
  compilerModule (vars s) = Some fs ->
  calls s !! id = None ->
  readyCallbacks (vars (step s (Call id))) = readyCallbacks (vars s) ++ [id]
  /\ calls (step s (Call id)) !! id = Some Pending.
Proof.
  intros Hr Hm Hnew. cbn [step]. rewrite Hnew. unfold initEnter. rewrite Hr, Hm.
  cbn. split; [reflexivity | apply lookup_insert_eq].
Qed.

Lemma resolveAll_lookup cbs : forall (cs : gmap nat callState) id,
  resolveAll cbs cs !! id = if decide (id ∈ cbs) then Some Fulfilled else cs !! id.
Proof.
  unfold resolveAll.
  induction cbs as [|cb cbs IH]; intros cs id; cbn [fold_left].
  - destruct (decide (id ∈ [])) as [Hin|_]; [inversion Hin | reflexivity].
  - rewrite IH. destruct (decide (id ∈ cbs)) as [Hin|Hnin].
    + destruct (decide (id ∈ cb :: cbs)) as [_|Hn]; [reflexivity|].
      exfalso. apply Hn. now right.
    + destruct (decide (cb = id)) as [->|Hne].
      * rewrite lookup_insert_eq.
        destruct (decide (id ∈ id :: cbs)) as [_|Hn]; [reflexivity|].
        exfalso. apply Hn. left.
      * rewrite lookup_insert_ne by exact Hne.
        destruct (decide (id ∈ cb :: cbs)) as [Hin|_]; [|reflexivity].
        inversion Hin; subst; contradiction.
Qed.

(** A load that succeeds resumes the queued callers in the order they
    joined, and empties the queue. *)
Lemma initFinish_drains s id fs fs' :
  FS.mkdir fs "/include" = inl fs' ->
  let s' := initFinish s id fs in
  vars s' = mkWrapper (Some fs') true []
  /\ resolved s' = resolved s ++ readyCallbacks (vars s)
  /\ calls s' !! id = Some Fulfilled
  /\ forall cb, cb ∈ readyCallbacks (vars s) -> calls s' !! cb = Some Fulfilled.
Proof.
  intros Hmk. unfold initFinish. rewrite Hmk. cbn.
  repeat split.
  - apply lookup_insert_eq.
  - intros cb Hin. destruct (decide (id = cb)) as [->|Hne].
    + apply lookup_insert_eq.
    + rewrite lookup_insert_ne by exact Hne. rewrite resolveAll_lookup.
      destruct (decide (cb ∈ readyCallbacks (vars s))); [reflexivity | contradiction].
Qed.

(** A failure while the module is being acquired leaves the wrapper's
    variables as they were. *)
Lemma acquisition_failure_keeps_vars s id error :
  vars (step s (ImportSettled id (Some error))) = vars s
  /\ vars (step s (CreateSettled id (inr error))) = vars s.
Proof.
  split; cbn [step]; destruct (calls s !! id) as [[]|]; reflexivity.
Qed.

(** Once stuck, always stuck: no event changes the state of a call
    already made, and a new call is only queued. *)
Lemma step_stuck s ev :
  stuck s ->
  stuck (step s ev)
  /\ forall id c, calls s !! id = Some c -> calls (step s ev) !! id = Some c.
Proof.
  intros (Hm & Hr & Hc).
  destruct ev as [id | id failure | id result]; cbn [step].
  - destruct (calls s !! id) as [c|] eqn:Hid.
    + split; [unfold stuck; auto | tauto].
    + unfold initEnter. rewrite Hr.
      destruct (compilerModule (vars s)) as [fs|] eqn:Hfs; [|congruence].
      split.
      * unfold stuck. cbn. split; [discriminate|]. split; [reflexivity|].
        intros k c Hk. destruct (decide (id = k)) as [->|Hne].
        -- rewrite lookup_insert_eq in Hk. left. congruence.
        -- rewrite lookup_insert_ne in Hk by exact Hne. eapply Hc, Hk.
      * intros k c Hk. cbn. rewrite lookup_insert_ne; [exact Hk|]. congruence.
  - destruct (calls s !! id) as [c|] eqn:Hid.
    + destruct (Hc _ _ Hid) as [-> | [e ->]];
        (split; [unfold stuck; auto | tauto]).
    + split; [unfold stuck; auto | tauto].
  - destruct (calls s !! id) as [c|] eqn:Hid.
    + destruct (Hc _ _ Hid) as [-> | [e ->]];
        (split; [unfold stuck; auto | tauto]).
    + split; [unfold stuck; auto | tauto].
Qed.

Lemma run_stuck evs : forall s,
  stuck s ->
  stuck (run s evs)
  /\ forall id c, calls s !! id = Some c -> calls (run s evs) !! id = Some c.
Proof.
  induction evs as [|ev evs IH]; intros s Hs.
  - split; [exact Hs | tauto].
  - rewrite run_cons. destruct (step_stuck s ev Hs) as [Hs' Hkeep].
    destruct (IH _ Hs') as [Hs'' Hkeep'].
    split; [exact Hs''|]. intros id c H. apply Hkeep', Hkeep, H.
Qed.

Lemma stuck_state s : stuck s -> moduleState (vars s) = Initializing.
Proof.
  intros (Hm & Hr & _). unfold moduleState. rewrite Hr.
  destruct (compilerModule (vars s)); [reflexivity | congruence].
Qed.

Lemma stuck_lookup (s : world) (known : list (nat * callState)) :
  compilerModule (vars s) <> None ->
  compilerReady (vars s) = false ->
  calls s = list_to_map known ->
  Forall (fun kc => snd kc = Pending \/ exists e, snd kc = Rejected e) known ->
  stuck s.
Proof.
  intros Hm Hr Hcalls Hall. repeat split; [exact Hm | exact Hr |].
  intros id c Hid. rewrite Hcalls in Hid.
  apply elem_of_list_to_map_2 in Hid. apply list_elem_of_In in Hid.
  rewrite List.Forall_forall in Hall. exact (Hall _ Hid).
Qed.

Lemma mkdirFails_stuck : stuck (run initialWorld mkdirFails).
Proof.
  apply (stuck_lookup _
           [(0%nat, initFailure (toString (ErrnoError EEXIST)))]).
  - discriminate.
  - reflexivity.
  - reflexivity.
  - constructor; [right; eexists; reflexivity | constructor].
Qed.

Lemma waiterLeftBehind_stuck : stuck (run initialWorld waiterLeftBehind).
Proof.
  apply (stuck_lookup _
           [(0%nat, initFailure (toString (ErrnoError EEXIST)));
            (1%nat, initFailure "load failed");
            (2%nat, Pending)]).
  - discriminate.
  - reflexivity.
  - reflexivity.
  - constructor; [right; eexists; reflexivity|].
    constructor; [right; eexists; reflexivity|].
    constructor; [left; reflexivity | constructor].
Qed.

(** C1.  The code at the failing inputs.  A call that enters while an
    earlier call is still loading the module is not queued: it starts a
    load of its own, and when the first load fails and the second
    succeeds the two callers see different outcomes.  A caller that is
    queued is never told of a failure: when the load it waits for
    fails, it stays pending whatever happens afterwards. *)
Theorem initCompiler_overlapping_calls :
  (let s := run initialWorld overlappingCalls in
   calls s !! 0%nat = Some AwaitImport
   /\ calls s !! 1%nat = Some AwaitImport
   /\ readyCallbacks (vars s) = [])
  /\ (let s := run initialWorld firstFailsSecondLoads in
      calls s !! 0%nat = Some (initFailure "load failed")
      /\ calls s !! 1%nat = Some Fulfilled)
  /\ (let s := run initialWorld waiterLeftBehind in
      readyCallbacks (vars s) = [2%nat]
      /\ calls s !! 1%nat = Some (initFailure "load failed")
      /\ forall evs, calls (run s evs) !! 2%nat = Some Pending).
Proof.
  split; [|split].
  - repeat split; reflexivity.
  - split; reflexivity.
  - split; [reflexivity|]. split; [reflexivity|].
    intros evs. apply (run_stuck evs _ waiterLeftBehind_stuck). reflexivity.
Qed.

(** C2.  The code at the failing input.  A failure while the module is
    acquired leaves the wrapper's variables as they were.  A failure to
    create the include directory does not: the module instance stays
    set with the ready flag unset, the caller's promise is rejected,
    and from then on no call of [initCompiler] loads the module again
    or completes, whatever events follow. *)
Theorem initCompiler_mkdir_failure_sticks :
  (forall s id error,
     vars (step s (ImportSettled id (Some error))) = vars s
     /\ vars (step s (CreateSettled id (inr error))) = vars s)
  /\ (let s := run initialWorld mkdirFails in
      moduleState (vars initialWorld) = Uninitialized
      /\ moduleState (vars s) = Initializing
      /\ calls s !! 0%nat = Some (initFailure (toString (ErrnoError EEXIST)))
      /\ forall evs,
           moduleState (vars (run s evs)) = Initializing
           /\ forall id c, calls (run s evs) !! id = Some c ->
                           c = Pending \/ exists e, c = Rejected e).
Proof.
  split; [exact acquisition_failure_keeps_vars|].
  split; [reflexivity|]. split; [reflexivity|]. split; [reflexivity|].
  intros evs. destruct (run_stuck evs _ mkdirFails_stuck) as [Hs _].
  split; [now apply stuck_state | apply Hs].
Qed.

(** * Further properties *)

(** ** Strings *)

Lemma allChars_append P s t :
  allChars P (String.append s t) = allChars P s && allChars P t.
Proof.
  induction s as [|c s IH]; [reflexivity|].
  rewrite append_cons. cbn [allChars]. now rewrite IH, andb_assoc.
Qed.

Lemma allChars_impl (P Q : ascii -> bool) s :
  (forall c, P c = true -> Q c = true) ->
  allChars P s = true -> allChars Q s = true.
Proof.
  intros HPQ. induction s as [|c s IH]; [reflexivity|].
  cbn [allChars]. intros H. apply andb_prop in H as [Hc Hs].
  now rewrite (HPQ _ Hc), (IH Hs).
Qed.

Lemma allChars_lacks P c s :
  P c = false -> allChars P s = true -> lacks c s = true.
Proof.
  intros HP. induction s as [|a s IH]; [reflexivity|].
  cbn [allChars lacks]. intros H. apply andb_prop in H as [Ha Hs].
  rewrite (IH Hs), andb_true_r. apply negb_true_iff.
  destruct (Ascii.eqb_spec a c) as [->|]; [congruence | reflexivity].
Qed.

Lemma isDigit_uint (d : Decimal.uint) :
  allChars JS.isDigit (NilEmpty.string_of_uint d) = true.
Proof. induction d; cbn [NilEmpty.string_of_uint allChars]; auto. Qed.

(** A printed natural number is a non-empty run of digits. *)
Lemma numberToString_digits (n : Z) :
  (0 <= n)%Z ->
  allChars JS.isDigit (JS.numberToString n) = true
  /\ JS.numberToString n <> EmptyString.
Proof.
  intros Hn. unfold JS.numberToString, NilZero.string_of_int, NilZero.string_of_uint.
  destruct n as [|p|p]; [split; [reflexivity | discriminate] | | lia].
  cbn [Z.to_int]. pose proof (isDigit_uint (Pos.to_uint p)) as Hd.
  destruct (Pos.to_uint p) eqn:Hp; split; first [exact Hd | discriminate].
Qed.

Lemma spanDigits_run d c r :
  allChars JS.isDigit d = true ->
  JS.isDigit c = false ->
  JS.spanDigits (String.append d (String c r)) = (d, String c r).
Proof.
  intros Hd Hc. induction d as [|a d IH].
  - change (String.append EmptyString (String c r)) with (String c r).
    cbn [JS.spanDigits]. now rewrite Hc.
  - cbn [allChars] in Hd. apply andb_prop in Hd as [Ha Hd].
    rewrite append_cons. cbn [JS.spanDigits]. now rewrite Ha, (IH Hd).
Qed.

Lemma parseDigits_acc (d : Decimal.uint) : forall acc : positive,
  JS.parseDigits (Npos acc) (NilEmpty.string_of_uint d)
  = Npos (Pos.of_uint_acc d acc).
Proof.
  induction d; intros acc; cbn [NilEmpty.string_of_uint JS.parseDigits Pos.of_uint_acc];
    [reflexivity | ..];
    rewrite <- IHd; f_equal; cbn; lia.
Qed.

Lemma parseDigits_uint (d : Decimal.uint) :
  JS.parseDigits 0%N (NilEmpty.string_of_uint d) = Pos.of_uint d.
Proof.
  induction d; cbn [NilEmpty.string_of_uint JS.parseDigits Pos.of_uint];
    [reflexivity | exact IHd | ..];
    apply (parseDigits_acc d).
Qed.

(** Printing a natural number and parsing it back gives the number. *)
Lemma parseInt_numberToString (n : Z) :
  (0 <= n)%Z -> JS.parseInt (JS.numberToString n) = Z.to_N n.
Proof.
  intros Hn. unfold JS.parseInt, JS.numberToString, NilZero.string_of_int,
    NilZero.string_of_uint.
  destruct n as [|p|p]; [reflexivity | | lia].
  cbn [Z.to_int Z.to_N].
  pose proof (parseDigits_uint (Pos.to_uint p)) as Hd.
  rewrite DecimalPos.Unsigned.of_to in Hd.
  destruct (Pos.to_uint p) eqn:Hp; exact Hd.
Qed.
Lemma append_assoc (a b c : string) :
  String.append a (String.append b c) = String.append (String.append a b) c.
Proof.
  induction a as [|x a IH]; [reflexivity|]. now rewrite !append_cons, IH.
Qed.

Lemma append_nil_r (s : string) : String.append s EmptyString = s.
Proof. induction s as [|c s IH]; [reflexivity|]. now rewrite append_cons, IH. Qed.

Lemma isDigitChar_uint (d : Decimal.uint) :
  allChars isDigitChar (NilEmpty.string_of_uint d) = true.
Proof. induction d; cbn [NilEmpty.string_of_uint allChars]; auto. Qed.

Lemma isDigitChar_numberToString (n : Z) :
  allChars isDigitChar (JS.numberToString n) = true
  /\ JS.numberToString n <> EmptyString.
Proof.
  unfold JS.numberToString, NilZero.string_of_int, NilZero.string_of_uint.
  pose proof isDigitChar_uint as Hu.
  destruct (Z.to_int n) as [d|d]; specialize (Hu d); destruct d;
    split; first [exact Hu | discriminate | reflexivity].
Qed.

Lemma isDigitChar_notWhiteSpace c : isDigitChar c = true -> notWhiteSpace c = true.
Proof.
  unfold isDigitChar. intros H.
  repeat (apply orb_prop in H as [H|H]);
    apply Ascii.eqb_eq in H; subst; reflexivity.
Qed.

(** A needle whose first character does not occur in [d] can only be
    found after [d]. *)
Lemma includes_skip_lacks c needle d t :
  lacks c d = true ->
  JS.includes (String.append d t) (String c needle) = JS.includes t (String c needle).
Proof.
  induction d as [|a d IH]; [reflexivity|].
  cbn [lacks]. intros H. apply andb_prop in H as [Ha Hd].
  rewrite append_cons, includes_cons, (IH Hd).
  apply negb_true_iff in Ha. rewrite Ascii.eqb_sym in Ha.
  cbn [JS.startsWith]. now rewrite Ha.
Qed.

Lemma trimEnd_notWhiteSpace s : allChars notWhiteSpace s = true -> JS.trimEnd s = s.
Proof.
  induction s as [|c s IH]; [reflexivity|].
  cbn [allChars]. intros H. apply andb_prop in H as [Hc Hs].
  cbn [JS.trimEnd]. rewrite (IH Hs).
  unfold notWhiteSpace in Hc. apply negb_true_iff in Hc. rewrite Hc.
  destruct s; reflexivity.
Qed.

Lemma trimEnd_append s t :
  JS.trimEnd t = t -> t <> EmptyString ->
  JS.trimEnd (String.append s t) = String.append s t.
Proof.
  intros Ht Hne. induction s as [|c s IH]; [exact Ht|].
  rewrite append_cons. cbn [JS.trimEnd]. rewrite IH.
  destruct (String.append s t) eqn:Happ; [|reflexivity].
  destruct s; [|discriminate Happ].
  change (String.append EmptyString t) with t in Happ. congruence.
Qed.

Lemma matchSize_skip c s :
  matchSizeHere (String c s) = None -> matchSize (String c s) = matchSize s.
Proof. intros H. cbn [matchSize]. now rewrite H. Qed.

Lemma matchSize_here s d : matchSizeHere s = Some d -> matchSize s = Some d.
Proof. intros H. destruct s; cbn [matchSize]; now rewrite H. Qed.

Lemma successLine_matchSize (n : Z) :
  (0 <= n)%Z -> matchSize (successLine n) = Some (JS.numberToString n).
Proof.
  intros Hn. destruct (numberToString_digits n Hn) as [Hd Hne].
  unfold successLine.
  change "Compilation successful! AMX file size: "
    with (String.append "Compilation successful! " "AMX file size: ").
  rewrite <- append_assoc.
  repeat (rewrite append_cons, matchSize_skip by reflexivity).
  change (String.append EmptyString ?x) with x.
  apply matchSize_here. unfold matchSizeHere.
  change (JS.startsWith "AMX file size: " (String.append "AMX file size: " ?x))
    with true.
  change (JS.dropChars 15 (String.append "AMX file size: " ?x)) with x.
  cbv iota.
  change " bytes" with (String " " "bytes").
  rewrite (spanDigits_run _ " " "bytes" Hd eq_refl).
  destruct (JS.numberToString n); [congruence | reflexivity].
Qed.

Lemma successLine_lines (n : Z) :
  JS.split LF (msgSuccess n) = [successLine n; EmptyString].
Proof.
  unfold msgSuccess, successLine, NL.
  rewrite (append_assoc (JS.numberToString n)), append_assoc.
  rewrite split_append_LF; [reflexivity|].
  rewrite !lacks_append, (lacks_numberToString LF n) by reflexivity.
  reflexivity.
Qed.

Lemma parseLine_empty v : parseLine v EmptyString = v.
Proof. destruct v. reflexivity. Qed.

(** The success message of the C entry point parses back: for a file
    size [n] the parser reports success, the size [n], and no errors or
    warnings. *)
Lemma parse_msgSuccess (n : Z) :
  (0 <= n)%Z ->
  parseCompilerOutput (msgSuccess n)
  = mkResult true (msgSuccess n) [] [] (Some (Z.to_N n)).
Proof.
  intros Hn. unfold parseCompilerOutput.
  rewrite successLine_lines. cbn [fold_left]. rewrite parseLine_empty.
  assert (Hmarker : hasMarker (successLine n) = true) by reflexivity.
  assert (Herr : JS.includes (successLine n) "error" = false).
  { unfold successLine.
    change (JS.includes (String.append "Compilation successful! AMX file size: " ?x) "error")
      with (JS.includes x "error").
    rewrite includes_skip_lacks by (apply lacks_numberToString; reflexivity).
    reflexivity. }
  assert (Hwarn : JS.includes (successLine n) "warning" = false).
  { unfold successLine.
    change (JS.includes (String.append "Compilation successful! AMX file size: " ?x) "warning")
      with (JS.includes x "warning").
    rewrite includes_skip_lacks by (apply lacks_numberToString; reflexivity).
    reflexivity. }
  unfold parseLine, extractWarning, extractError, detectSuccess.
  unfold hasMarker in Hmarker. rewrite Hmarker, Herr, Hwarn.
  cbn. rewrite (successLine_matchSize n Hn), (parseInt_numberToString n Hn).
  reflexivity.
Qed.
Lemma failedLine_trim (result : Z) : JS.trim (failedLine result) = failedLine result.
Proof.
  unfold JS.trim, failedLine.
  change (JS.trimStart (String.append failedPrefix ?x)) with (String.append failedPrefix x).
  destruct (isDigitChar_numberToString result) as [Hd Hne].
  apply trimEnd_append; [|exact Hne].
  apply trimEnd_notWhiteSpace.
  exact (allChars_impl _ _ _ isDigitChar_notWhiteSpace Hd).
Qed.

(** The failure message of the C entry point parses to a failure whose
    only error entry is the message line itself. *)
Lemma parse_msgFailed (result : Z) :
  parseCompilerOutput (msgFailed result)
  = mkResult false (msgFailed result) [failedLine result] [] None.
Proof.
  unfold parseCompilerOutput.
  rewrite msgFailed_lines. fold (failedLine result).
  cbn [fold_left]. rewrite parseLine_empty.
  assert (Hmarker : JS.includes (failedLine result) successMarker = false).
  { unfold failedLine. rewrite includes_failedPrefix.
    apply includes_lacks_C, lacks_numberToString. reflexivity. }
  assert (Herr : JS.includes (failedLine result) "error" = true) by reflexivity.
  assert (Hcolon : JS.includes (failedLine result) ":" = true) by reflexivity.
  assert (Hwarn : JS.includes (failedLine result) "warning" = false).
  { unfold failedLine.
    change (JS.includes (String.append failedPrefix ?x) "warning")
      with (JS.includes x "warning").
    rewrite <- (append_nil_r (JS.numberToString result)).
    rewrite includes_skip_lacks by (apply lacks_numberToString; reflexivity).
    reflexivity. }
  unfold parseLine, extractWarning, extractError, detectSuccess.
  rewrite Hmarker, Herr, Hcolon, Hwarn. cbn.
  now rewrite failedLine_trim.
Qed.
(** ** More on the diagnostic parser *)

Lemma fold_parseLine_amxSize lines : forall v,
  (v_amxSize v <> None -> v_success v = true) ->
  v_amxSize (fold_left parseLine lines v) <> None ->
  v_success (fold_left parseLine lines v) = true.
Proof.
  induction lines as [|l ls IH]; intros v Hv; [exact Hv|].
  cbn [fold_left]. apply IH.
  rewrite parseLine_amxSize, parseLine_success.
  destruct (hasMarker l); [intros _; apply orb_true_r|].
  intros H. rewrite (Hv H). reflexivity.
Qed.

(** X1.  An artifact size is only ever reported together with success. *)
Theorem parse_amxSize_implies_success (out : string) (n : N) :
  amxSize (parseCompilerOutput out) = Some n ->
  success (parseCompilerOutput out) = true.
Proof.
  unfold parseCompilerOutput. cbn [amxSize success]. intros H.
  apply fold_parseLine_amxSize; [intros Hn; now contradiction Hn | congruence].
Qed.

Lemma parse_amxSize_implies_success_witness :
  success (parseCompilerOutput exampleSuccessOutput) = true.
Proof. apply (parse_amxSize_implies_success exampleSuccessOutput 4096). reflexivity. Defined.

Lemma trimStart_head s : headNotWhiteSpace (JS.trimStart s) = true.
Proof.
  induction s as [|c s IH]; [reflexivity|].
  cbn [JS.trimStart]. destruct (JS.isWhiteSpace c) eqn:Hc; [exact IH|].
  cbn [headNotWhiteSpace]. unfold notWhiteSpace. now rewrite Hc.
Qed.

Lemma trimStart_id s : headNotWhiteSpace s = true -> JS.trimStart s = s.
Proof.
  destruct s as [|c s]; [reflexivity|].
  cbn [headNotWhiteSpace JS.trimStart]. unfold notWhiteSpace.
  intros H. apply negb_true_iff in H. now rewrite H.
Qed.

Lemma trimEnd_head s : headNotWhiteSpace s = true -> headNotWhiteSpace (JS.trimEnd s) = true.
Proof.
  destruct s as [|c s]; [reflexivity|].
  cbn [headNotWhiteSpace JS.trimEnd]. unfold notWhiteSpace. intros H.
  apply negb_true_iff in H. rewrite H.
  destruct (JS.trimEnd s); cbn [headNotWhiteSpace]; unfold notWhiteSpace;
    now rewrite H.
Qed.

Lemma trimEnd_idempotent s : JS.trimEnd (JS.trimEnd s) = JS.trimEnd s.
Proof.
  induction s as [|c s IH]; [reflexivity|].
  cbn [JS.trimEnd]. destruct (JS.trimEnd s) as [|a t] eqn:Ht.
  - destruct (JS.isWhiteSpace c) eqn:Hc; [reflexivity|].
    cbn [JS.trimEnd]. now rewrite Hc.
  - cbn [JS.trimEnd]. cbn [JS.trimEnd] in IH.
    destruct (JS.trimEnd t) as [|b u] eqn:Hu.
    + destruct (JS.isWhiteSpace a); [discriminate IH|].
      inversion IH; subst. reflexivity.
    + now rewrite IH.
Qed.

Lemma trim_idempotent s : JS.trim (JS.trim s) = JS.trim s.
Proof.
  unfold JS.trim.
  rewrite (trimStart_id (JS.trimEnd (JS.trimStart s)))
    by apply trimEnd_head, trimStart_head.
  apply trimEnd_idempotent.
Qed.

(** Trimming does not remove a needle that has no white space. *)
Lemma startsWith_trimEnd s : forall needle,
  allChars notWhiteSpace needle = true ->
  JS.startsWith needle (JS.trimEnd s) = JS.startsWith needle s.
Proof.
  induction s as [|c s IH]; intros needle Hn; [reflexivity|].
  destruct needle as [|a n]; [destruct (JS.trimEnd (String c s)); reflexivity|].
  cbn [allChars] in Hn. apply andb_prop in Hn as [Ha Hn].
  specialize (IH n Hn).
  cbn [JS.trimEnd]. destruct (JS.trimEnd s) as [|b t] eqn:Ht.
  - destruct (JS.isWhiteSpace c) eqn:Hc.
    + cbn [JS.startsWith].
      destruct (Ascii.eqb_spec a c) as [->|]; [|reflexivity].
      unfold notWhiteSpace in Ha. rewrite Hc in Ha. discriminate Ha.
    + cbn [JS.startsWith]. destruct (Ascii.eqb a c); [exact IH | reflexivity].
  - cbn [JS.startsWith]. destruct (Ascii.eqb a c); [exact IH | reflexivity].
Qed.

Lemma includes_empty needle :
  needle <> EmptyString -> JS.includes EmptyString needle = false.
Proof. destruct needle; [congruence | reflexivity]. Qed.

Lemma includes_trimEnd needle s :
  allChars notWhiteSpace needle = true -> needle <> EmptyString ->
  JS.includes (JS.trimEnd s) needle = JS.includes s needle.
Proof.
  intros Hn Hne. induction s as [|c s IH]; [reflexivity|].
  rewrite includes_cons, <- IH, <- (startsWith_trimEnd (String c s) needle Hn).
  cbn [JS.trimEnd]. destruct (JS.trimEnd s) as [|b t] eqn:Ht.
  - destruct (JS.isWhiteSpace c).
    + rewrite includes_empty by exact Hne.
      destruct needle; [congruence | reflexivity].
    + rewrite includes_cons. reflexivity.
  - rewrite includes_cons. reflexivity.
Qed.

Lemma includes_trimStart needle s :
  headNotWhiteSpace needle = true -> needle <> EmptyString ->
  JS.includes (JS.trimStart s) needle = JS.includes s needle.
Proof.
  intros Hn Hne. induction s as [|c s IH]; [reflexivity|].
  cbn [JS.trimStart]. destruct (JS.isWhiteSpace c) eqn:Hc; [|reflexivity].
  rewrite IH, includes_cons.
  destruct needle as [|a n]; [congruence|].
  cbn [headNotWhiteSpace] in Hn. cbn [JS.startsWith].
  destruct (Ascii.eqb_spec a c) as [->|]; [|reflexivity].
  unfold notWhiteSpace in Hn. rewrite Hc in Hn. discriminate Hn.
Qed.

Lemma includes_trim needle s :
  allChars notWhiteSpace needle = true -> needle <> EmptyString ->
  JS.includes (JS.trim s) needle = JS.includes s needle.
Proof.
  intros Hn Hne. unfold JS.trim.
  rewrite includes_trimEnd, includes_trimStart; try assumption; try reflexivity.
  destruct needle as [|a n]; [reflexivity|].
  cbn [allChars] in Hn. apply andb_prop in Hn as [Ha _]. exact Ha.
Qed.

(** X2.  Every entry of the error list contains "error" and ":" and
    has no white space around it; every entry of the warning list
    contains "warning" and ":" and has no white space around it. *)
Theorem parse_entries_trimmed (out : string) :
  Forall (fun e => JS.includes e "error" = true
                   /\ JS.includes e ":" = true
                   /\ JS.trim e = e)
         (errors (parseCompilerOutput out))
  /\ Forall (fun e => JS.includes e "warning" = true
                      /\ JS.includes e ":" = true
                      /\ JS.trim e = e)
            (warnings (parseCompilerOutput out)).
Proof.
  unfold parseCompilerOutput. cbn [errors warnings].
  rewrite fold_parseLine_errors, fold_parseLine_warnings. cbn [v_errors v_warnings app].
  split; apply List.Forall_forall; intros e He;
    apply in_map_iff in He as [line [<- Hin]];
    apply filter_In in Hin as [_ Hline];
    apply andb_prop in Hline as [H1 H2];
    rewrite !includes_trim by (try reflexivity; discriminate);
    rewrite trim_idempotent; auto.
Qed.
(** ** The compile pipeline end to end *)

Lemma resolve_inputPath : PATH.resolve inputPath = ["input.pwn"].
Proof. reflexivity. Qed.

Lemma resolve_outputPath : PATH.resolve outputPath = ["output.amx"].
Proof. reflexivity. Qed.

Lemma fwriteAll_input fs text :
  FS.lookupNode fs (PATH.resolve inputPath) <> Some Dir ->
  fwriteAll fs inputPath text = Some (<[PATH.resolve inputPath := File text]> fs).
Proof.
  unfold fwriteAll, FS.writeFile, FS.mayCreate. rewrite resolve_inputPath.
  intros Hnd. destruct (FS.lookupNode fs ["input.pwn"]) as [[c|]|];
    [reflexivity | congruence | reflexivity].
Qed.

Lemma fwriteAll_directory fs text :
  FS.lookupNode fs (PATH.resolve inputPath) = Some Dir ->
  fwriteAll fs inputPath text = None.
Proof. unfold fwriteAll, FS.writeFile. now intros ->. Qed.

Section Pipeline.

Variable pc_compile : nat -> list string -> filesystem -> pc_outcome.

(** What [compile] does on a ready wrapper whose input path can be
    written, by the outcome of the compiler. *)
Lemma compile_staged w fs src opts :
  compilerReady w = true ->
  compilerModule w = Some fs ->
  FS.lookupNode fs (PATH.resolve inputPath) <> Some Dir ->
  compile pc_compile w src opts
  = match callCompiler pc_compile fs src opts with
    | PcTrap text fs2 => (setFS w fs2, Return (mkResult false text [text] [] None))
    | PcReturn result fs2 =>
        (setFS w fs2,
         Return (parseCompilerOutput
                   (if (result =? 0)%Z
                    then match fsize fs2 outputPath with
                         | Some amx_size => msgSuccess amx_size
                         | None => msgNoAmx
                         end
                    else msgFailed result)))
    end.
Proof.
  intros Hr Hm Hnd. unfold compile, pawncl_compile, callCompiler, compilerArgs,
    stagedInputStore.
  rewrite Hr, Hm, (fwriteAll_input fs (cstr src) Hnd).
  destruct (buildArgv (Some (cstr (optionsString opts)))) as [argv argc].
  cbn [fst snd].
  destruct (pc_compile argc argv _) as [result fs2 | text fs2]; [|reflexivity].
  destruct (result =? 0)%Z; [|reflexivity].
  destruct (fsize fs2 outputPath); reflexivity.
Qed.

End Pipeline.

(** X3.  When the compiler returns 0 and leaves a file at the output
    path, [compile] reports success with no errors or warnings, the
    reported artifact size is the length of that file, and
    [getCompiledAMX] then returns exactly its bytes. *)
Theorem compile_success_artifact
    (pc_compile : nat -> list string -> filesystem -> pc_outcome)
    (w : wrapper) (fs fs2 : filesystem) (src bytes : string) (opts : CompilerOptions) :
  compilerReady w = true ->
  compilerModule w = Some fs ->
  FS.lookupNode fs (PATH.resolve inputPath) <> Some Dir ->
  callCompiler pc_compile fs src opts = PcReturn 0 fs2 ->
  FS.readFile fs2 outputPath = inl bytes ->
  let size := Z.of_nat (String.length bytes) in
  compile pc_compile w src opts
  = (setFS w fs2, Return (mkResult true (msgSuccess size) [] [] (Some (Z.to_N size))))
  /\ getCompiledAMX (fst (compile pc_compile w src opts)) = Return (Some bytes).
Proof.
  intros Hr Hm Hnd Hpc Hread size.
  assert (Hfile : FS.lookupNode fs2 (PATH.resolve outputPath) = Some (File bytes)).
  { unfold FS.readFile in Hread.
    destruct (FS.lookupNode fs2 (PATH.resolve outputPath)) as [[c|]|];
      congruence. }
  rewrite (compile_staged pc_compile w fs src opts Hr Hm Hnd), Hpc.
  cbn [Z.eqb]. unfold fsize. rewrite Hfile. fold size.
  rewrite parse_msgSuccess by (unfold size; lia).
  split; [reflexivity|]. cbn [fst].
  rewrite (getCompiledAMX_module (setFS w fs2) fs2 eq_refl), Hfile. reflexivity.
Qed.

Lemma compile_success_artifact_witness :
  compile workingCompiler readyWrapper "main() {}" (mkOptions (Some 2%Z) None None)
  = (setFS readyWrapper
       (<[PATH.resolve outputPath := File "AMX!"]>
          (stagedInputStore {[ ["include"] := Dir ]} "main() {}")),
     Return (mkResult true (msgSuccess 4) [] [] (Some 4%N)))
  /\ getCompiledAMX
       (fst (compile workingCompiler readyWrapper "main() {}"
               (mkOptions (Some 2%Z) None None)))
     = Return (Some "AMX!").
Proof.
  apply (compile_success_artifact workingCompiler readyWrapper
           {[ ["include"] := Dir ]} _ "main() {}" "AMX!"
           (mkOptions (Some 2%Z) None None));
    try reflexivity.
  discriminate.
Defined.

(** X4.  When the compiler returns a code other than 0, [compile]
    returns a failure whose output is the failure message and whose
    only error entry is its line "Compilation failed with error code:"
    followed by the code; there are no warnings and no artifact size. *)
Theorem compile_failure_code
    (pc_compile : nat -> list string -> filesystem -> pc_outcome)
    (w : wrapper) (fs fs2 : filesystem) (src : string) (opts : CompilerOptions)
    (result : Z) :
  compilerReady w = true ->
  compilerModule w = Some fs ->
  FS.lookupNode fs (PATH.resolve inputPath) <> Some Dir ->
  callCompiler pc_compile fs src opts = PcReturn result fs2 ->
  result <> 0%Z ->
  compile pc_compile w src opts
  = (setFS w fs2,
     Return (mkResult false (msgFailed result) [failedLine result] [] None)).
Proof.
  intros Hr Hm Hnd Hpc Hne.
  rewrite (compile_staged pc_compile w fs src opts Hr Hm Hnd), Hpc.
  apply Z.eqb_neq in Hne. rewrite Hne. now rewrite parse_msgFailed.
Qed.

Lemma compile_failure_code_witness :
  compile failingCompiler readyWrapper "main() {" (mkOptions None None None)
  = (setFS readyWrapper (stagedInputStore {[ ["include"] := Dir ]} "main() {"),
     Return (mkResult false (msgFailed 1)
               ["Compilation failed with error code: 1"] [] None)).
Proof.
  apply (compile_failure_code failingCompiler readyWrapper
           {[ ["include"] := Dir ]} _ "main() {" (mkOptions None None None) 1);
    try reflexivity; discriminate.
Defined.

(** X5.  [pawncl_compile] does not remove an earlier artifact: when the
    compiler fails and leaves the output path as it found it, [compile]
    reports failure and [getCompiledAMX] still returns the bytes of the
    earlier artifact. *)
Theorem compile_failure_keeps_old_artifact
    (pc_compile : nat -> list string -> filesystem -> pc_outcome)
    (w : wrapper) (fs fs2 : filesystem) (src old : string) (opts : CompilerOptions)
    (result : Z) :
  compilerReady w = true ->
  compilerModule w = Some fs ->
  FS.lookupNode fs (PATH.resolve inputPath) <> Some Dir ->
  FS.readFile fs outputPath = inl old ->
  callCompiler pc_compile fs src opts = PcReturn result fs2 ->
  result <> 0%Z ->
  FS.lookupNode fs2 (PATH.resolve outputPath)
  = FS.lookupNode (stagedInputStore fs src) (PATH.resolve outputPath) ->
  (exists r, compile pc_compile w src opts = (setFS w fs2, Return r)
             /\ success r = false)
  /\ getCompiledAMX (fst (compile pc_compile w src opts)) = Return (Some old).
Proof.
  intros Hr Hm Hnd Hold Hpc Hne Hkeep.
  rewrite (compile_staged pc_compile w fs src opts Hr Hm Hnd), Hpc.
  apply Z.eqb_neq in Hne. rewrite Hne, parse_msgFailed.
  split; [eexists; split; reflexivity|]. cbn [fst].
  rewrite (getCompiledAMX_module (setFS w fs2) fs2 eq_refl), Hkeep.
  unfold stagedInputStore.
  rewrite lookupNode_insert_ne
    by (rewrite resolve_inputPath, resolve_outputPath; discriminate).
  unfold FS.readFile in Hold.
  destruct (FS.lookupNode fs (PATH.resolve outputPath)) as [[c|]|]; congruence.
Qed.

Lemma compile_failure_keeps_old_artifact_witness :
  (exists r,
     compile failingCompiler compiledWrapper "main() {" (mkOptions None None None)
     = (setFS compiledWrapper (stagedInputStore stagedStore "main() {"), Return r)
     /\ success r = false)
  /\ getCompiledAMX
       (fst (compile failingCompiler compiledWrapper "main() {"
               (mkOptions None None None)))
     = Return (Some "AMX!").
Proof.
  apply (compile_failure_keeps_old_artifact failingCompiler compiledWrapper
           stagedStore _ "main() {" "AMX!" (mkOptions None None None) 1);
    try reflexivity; discriminate.
Defined.

(** X6.  Two failures carry no error entry at all.  When the compiler
    returns 0 but nothing is at the output path, and when the input path
    cannot be written because a directory is there, [compile] returns
    success false with an empty error list; in the second case the
    compiler is not started and the wrapper is left as it was. *)
Theorem compile_failure_without_errors
    (pc_compile : nat -> list string -> filesystem -> pc_outcome)
    (w : wrapper) (fs : filesystem) (src : string) (opts : CompilerOptions) :
  compilerReady w = true ->
  compilerModule w = Some fs ->
  (forall fs2,
     FS.lookupNode fs (PATH.resolve inputPath) <> Some Dir ->
     callCompiler pc_compile fs src opts = PcReturn 0 fs2 ->
     FS.exists_ fs2 outputPath = false ->
     compile pc_compile w src opts
     = (setFS w fs2, Return (mkResult false msgNoAmx [] [] None)))
  /\ (FS.lookupNode fs (PATH.resolve inputPath) = Some Dir ->
      compile pc_compile w src opts
      = (w, Return (mkResult false "Error: Could not create input file" [] [] None))).
Proof.
  intros Hr Hm. split.
  - intros fs2 Hnd Hpc Hex.
    rewrite (compile_staged pc_compile w fs src opts Hr Hm Hnd), Hpc.
    cbn [Z.eqb]. unfold fsize. unfold FS.exists_ in Hex.
    destruct (FS.lookupNode fs2 (PATH.resolve outputPath)); [discriminate Hex|].
    reflexivity.
  - intros Hdir. unfold compile, pawncl_compile.
    rewrite Hr, Hm, (fwriteAll_directory fs (cstr src) Hdir).
    now rewrite (setFS_same w fs Hm).
Qed.

Lemma compile_failure_without_errors_witness :
  compile silentCompiler readyWrapper "main() {}" (mkOptions None None None)
  = (setFS readyWrapper (stagedInputStore {[ ["include"] := Dir ]} "main() {}"),
     Return (mkResult false msgNoAmx [] [] None))
  /\ compile workingCompiler clutteredWrapper "main() {}" (mkOptions None None None)
     = (clutteredWrapper,
        Return (mkResult false "Error: Could not create input file" [] [] None)).
Proof.
  split.
  - destruct (compile_failure_without_errors silentCompiler readyWrapper
                {[ ["include"] := Dir ]} "main() {}" (mkOptions None None None)
                eq_refl eq_refl) as [H _].
    apply H; [discriminate | reflexivity | reflexivity].
  - destruct (compile_failure_without_errors workingCompiler clutteredWrapper
                clutteredStore "main() {}" (mkOptions None None None)
                eq_refl eq_refl) as [_ H].
    apply H. reflexivity.
Defined.

(** ** Flags from the option record to the argument vector *)

Lemma split_lacks sep s : lacks sep s = true -> JS.split sep s = [s].
Proof.
  induction s as [|c s IH]; [reflexivity|].
  cbn [lacks]. intros H. apply andb_prop in H as [Hc Hs].
  apply negb_true_iff in Hc. cbn [JS.split]. now rewrite Hc, (IH Hs).
Qed.

Lemma split_append_sep sep s t :
  lacks sep s = true ->
  JS.split sep (String.append s (String sep t)) = s :: JS.split sep t.
Proof.
  induction s as [|c s IH].
  - intros _. change (String.append EmptyString (String sep t)) with (String sep t).
    cbn [JS.split]. now rewrite Ascii.eqb_refl.
  - cbn [lacks]. intros H. apply andb_prop in H as [Hc Hs].
    apply negb_true_iff in Hc.
    rewrite append_cons. cbn [JS.split]. now rewrite Hc, (IH Hs).
Qed.

Lemma split_pieces_lack sep s :
  Forall (fun piece => lacks sep piece = true) (JS.split sep s).
Proof.
  induction s as [|c s IH]; [repeat constructor|].
  cbn [JS.split]. destruct (Ascii.eqb c sep) eqn:Hc.
  - constructor; [reflexivity | exact IH].
  - destruct (JS.split sep s) as [|l ls]; [repeat constructor; cbn [lacks]; now rewrite Hc|].
    inversion IH as [|? ? Hl Hls]; subst.
    constructor; [|exact Hls]. cbn [lacks]. now rewrite Hc, Hl.
Qed.

Lemma split_join sep (l : list string) :
  l <> [] ->
  Forall (fun x => lacks sep x = true) l ->
  JS.split sep (JS.join (String sep EmptyString) l) = l.
Proof.
  induction l as [|x xs IH]; [congruence|].
  intros _ Hall. inversion Hall as [|? ? Hx Hxs]; subst.
  destruct xs as [|y ys].
  - cbn [JS.join]. now apply split_lacks.
  - change (JS.join (String sep EmptyString) (x :: y :: ys))
      with (String.append x (String.append (String sep EmptyString)
              (JS.join (String sep EmptyString) (y :: ys)))).
    change (String.append (String sep EmptyString) ?t) with (String sep t).
    rewrite (split_append_sep sep x _ Hx), IH; [reflexivity | discriminate | exact Hxs].
Qed.

Lemma lacks_join c sep (l : list string) :
  Ascii.eqb sep c = false ->
  Forall (fun x => lacks c x = true) l ->
  lacks c (JS.join (String sep EmptyString) l) = true.
Proof.
  intros Hsep. induction l as [|x xs IH]; [reflexivity|].
  intros Hall. inversion Hall as [|? ? Hx Hxs]; subst.
  destruct xs as [|y ys]; [exact Hx|].
  change (JS.join (String sep EmptyString) (x :: y :: ys))
    with (String.append x (String sep (JS.join (String sep EmptyString) (y :: ys)))).
  rewrite lacks_append, Hx. cbn [lacks andb]. now rewrite Hsep, (IH Hxs).
Qed.

Lemma cstr_lacks s : lacks zero s = true -> cstr s = s.
Proof.
  induction s as [|c s IH]; [reflexivity|].
  cbn [lacks]. intros H. apply andb_prop in H as [Hc Hs].
  apply negb_true_iff in Hc. cbn [cstr]. now rewrite Hc, (IH Hs).
Qed.

Lemma cleanFlag_spec flag :
  cleanFlag flag = true ->
  flag <> EmptyString /\ lacks " " flag = true /\ lacks zero flag = true.
Proof.
  unfold cleanFlag. intros H.
  apply andb_prop in H as [H Hz]. apply andb_prop in H as [Hne Hs].
  repeat split; try assumption.
  intros ->. discriminate Hne.
Qed.

Lemma strtok_join (l : list string) :
  Forall (fun flag => cleanFlag flag = true) l ->
  strtok (JS.join " " l) = l.
Proof.
  intros Hall. unfold strtok. destruct l as [|x xs]; [reflexivity|].
  rewrite (split_join " " (x :: xs)).
  - apply forallb_filter_id. apply forallb_forall. intros f Hf.
    rewrite List.Forall_forall in Hall. specialize (Hall f Hf).
    unfold cleanFlag in Hall. apply andb_prop in Hall as [H _].
    now apply andb_prop in H as [H _].
  - discriminate.
  - eapply List.Forall_impl; [|exact Hall].
    intros f Hf. now apply cleanFlag_spec in Hf.
Qed.

Lemma cleanFlag_level (head : string) (n : Z) :
  cleanFlag head = true ->
  cleanFlag (String.append head (JS.numberToString n)) = true.
Proof.
  intros Hh. apply cleanFlag_spec in Hh as (Hne & Hs & Hz).
  unfold cleanFlag. rewrite !lacks_append, Hs, Hz.
  rewrite !lacks_numberToString by reflexivity.
  destruct head; [congruence | reflexivity].
Qed.

Lemma optionsArray_app (options : CompilerOptions) :
  optionsArray options
  = (match optimizationLevel options with
     | Some n => [String.append "-O" (JS.numberToString n)]
     | None => []
     end)
    ++ (match debugLevel options with
        | Some n => [String.append "-d" (JS.numberToString n)]
        | None => []
        end)
    ++ ["-i/include"]
    ++ (match additionalFlags options with
        | Some flags => flags
        | None => []
        end).
Proof.
  unfold optionsArray.
  destruct (optimizationLevel options), (debugLevel options),
    (additionalFlags options); simpl; rewrite ?app_nil_r; reflexivity.
Qed.

Lemma optionsArray_clean (options : CompilerOptions) :
  Forall (fun flag => cleanFlag flag = true)
    (match additionalFlags options with Some flags => flags | None => [] end) ->
  Forall (fun flag => cleanFlag flag = true) (optionsArray options).
Proof.
  intros Hflags. rewrite optionsArray_app.
  repeat apply Forall_app_2.
  - destruct (optimizationLevel options); repeat constructor.
    now apply cleanFlag_level.
  - destruct (debugLevel options); repeat constructor.
    now apply cleanFlag_level.
  - repeat constructor.
  - exact Hflags.
Qed.

Lemma buildArgv_firstn (options : option string) :
  buildArgv options
  = (["pawncc"; "-o/output.amx"]
       ++ firstn 28 (match options with Some o => strtok o | None => [] end)
       ++ ["/input.pwn"],
     (3 + Nat.min 28 (length (match options with Some o => strtok o | None => [] end)))%nat).
Proof.
  unfold buildArgv. destruct options as [o|]; [|reflexivity].
  destruct (0 <? String.length o)%nat eqn:Hlen.
  - rewrite tokenLoop_firstn by lia. simpl. reflexivity.
  - apply Nat.ltb_ge in Hlen. destruct o; [reflexivity | simpl in Hlen; lia].
Qed.

(** X7.  When every additional flag is non-empty and holds neither a
    space nor a NUL, and the flag array has at most 28 entries, the
    compiler receives exactly the flag array between the output-path
    flag and the input path: joining the flags into the option string
    and splitting it again in [pawncl_compile] loses nothing. *)
Theorem flags_reach_compiler (options : CompilerOptions) :
  Forall (fun flag => cleanFlag flag = true)
    (match additionalFlags options with Some flags => flags | None => [] end) ->
  (length (optionsArray options) <= 28)%nat ->
  compilerArgs options
  = ("pawncc" :: "-o/output.amx" :: optionsArray options ++ ["/input.pwn"],
     (3 + length (optionsArray options))%nat).
Proof.
  intros Hflags Hlen. pose proof (optionsArray_clean options Hflags) as Hclean.
  unfold compilerArgs, optionsString.
  rewrite cstr_lacks.
  - rewrite buildArgv_firstn, (strtok_join _ Hclean).
    rewrite firstn_all2 by exact Hlen.
    rewrite Nat.min_r by exact Hlen. reflexivity.
  - apply lacks_join; [reflexivity|].
    eapply List.Forall_impl; [|exact Hclean].
    intros f Hf. now apply cleanFlag_spec in Hf.
Qed.

Lemma flags_reach_compiler_witness :
  compilerArgs (mkOptions (Some 2%Z) (Some 3%Z) (Some ["-Z+"; "-;+"]))
  = (["pawncc"; "-o/output.amx"; "-O2"; "-d3"; "-i/include"; "-Z+"; "-;+";
      "/input.pwn"], 8%nat).
Proof.
  apply (flags_reach_compiler (mkOptions (Some 2%Z) (Some 3%Z) (Some ["-Z+"; "-;+"]))).
  - repeat constructor.
  - cbn. lia.
Defined.

(** X8.  No argument handed to the compiler is empty or contains a
    space, whatever the option string: a flag with a space inside
    reaches the compiler in pieces. *)
Theorem argv_entries_have_no_space (options : option string) :
  Forall (fun arg => arg <> EmptyString /\ lacks " " arg = true)
    (fst (buildArgv options)).
Proof.
  rewrite buildArgv_firstn. cbn [fst].
  repeat apply Forall_app_2.
  - repeat constructor; discriminate.
  - destruct options as [o|]; [|rewrite firstn_nil; constructor].
    apply List.Forall_forall. intros t Ht.
    assert (Hall : In t (strtok o)).
    { rewrite <- (firstn_skipn 28 (strtok o)). apply in_or_app. now left. }
    unfold strtok in Hall. apply filter_In in Hall as [Hin Hne].
    pose proof (split_pieces_lack " " o) as Hp.
    rewrite List.Forall_forall in Hp. split; [|exact (Hp t Hin)].
    intros ->. discriminate Hne.
  - repeat constructor. discriminate.
Qed.

(** ** The include store: what staging leaves alone *)

Lemma keepsOthers_refl p fs : keepsOthers p fs fs.
Proof. intros q n _ H. exact H. Qed.

Lemma keepsOthers_trans p fs1 fs2 fs3 :
  keepsOthers p fs1 fs2 -> keepsOthers p fs2 fs3 -> keepsOthers p fs1 fs3.
Proof. intros H12 H23 q n Hq H. apply (H23 q n Hq), (H12 q n Hq), H. Qed.

Lemma keepsOthers_insert_at (p : list string) (fs : filesystem) (n : node) : keepsOthers p fs (<[p := n]> fs).
Proof. intros q m Hq H. rewrite lookupNode_insert_ne by congruence. exact H. Qed.

Lemma keepsOthers_delete_at (p : list string) (fs : filesystem) : keepsOthers p fs (delete p fs).
Proof. intros q m Hq H. rewrite lookupNode_delete_ne by congruence. exact H. Qed.

(** A new directory is only ever added where nothing was. *)
Lemma mkdir_keeps fs path fs' p :
  FS.mkdir fs path = inl fs' -> keepsOthers p fs fs'.
Proof.
  unfold FS.mkdir.
  destruct (FS.lookupNode fs (PATH.resolve path)) eqn:Hl; [discriminate|].
  destruct (FS.mayCreate fs (PATH.resolve path)); [discriminate|].
  intros H. inversion H; subst. intros q n _ Hq.
  rewrite lookupNode_insert_ne; [exact Hq|]. intros <-. congruence.
Qed.

Lemma mkdirLoop_keeps dirs : forall fs base fs' c p,
  mkdirLoop fs base dirs = (fs', c) -> keepsOthers p fs fs'.
Proof.
  induction dirs as [|part rest IH]; intros fs base fs' c p; cbn [mkdirLoop].
  - intros H. inversion H; subst. apply keepsOthers_refl.
  - destruct (FS.mkdir fs _) as [fs1|e] eqn:Hmk.
    + intros H. eapply keepsOthers_trans; [eapply mkdir_keeps, Hmk | eapply IH, H].
    + destruct (isFileExists e); [apply IH|].
      destruct (FS.exists_ fs _); [apply IH|].
      intros H. inversion H; subst. apply keepsOthers_refl.
Qed.

Lemma replaceFile_keeps fs path content fs' c :
  replaceFile fs path content = (fs', c) ->
  keepsOthers (PATH.resolve path) fs fs'.
Proof.
  unfold replaceFile.
  assert (Hu : forall fs1, (if FS.exists_ fs path then FS.unlink fs path else inl fs) = inl fs1 ->
                keepsOthers (PATH.resolve path) fs fs1).
  { intros fs1. destruct (FS.exists_ fs path).
    - intros H. apply unlink_inl in H as [-> _]. apply keepsOthers_delete_at.
    - intros H. inversion H; subst. apply keepsOthers_refl. }
  destruct (if FS.exists_ fs path then FS.unlink fs path else inl fs) as [fs1|e].
  - specialize (Hu fs1 eq_refl).
    destruct (FS.writeFile fs1 path content) as [fs2|e] eqn:Hw.
    + intros H. inversion H; subst.
      eapply keepsOthers_trans; [exact Hu|].
      unfold FS.writeFile in Hw.
      destruct (FS.lookupNode fs1 (PATH.resolve path)) as [[x|]|];
        try discriminate.
      * inversion Hw; subst. apply keepsOthers_insert_at.
      * destruct (FS.mayCreate fs1 (PATH.resolve path)); [discriminate|].
        inversion Hw; subst. apply keepsOthers_insert_at.
    + intros H. inversion H; subst. exact Hu.
  - intros H. inversion H; subst. apply keepsOthers_refl.
Qed.

Lemma addIncludeFile_keeps w fs filename content :
  compilerModule w = Some fs ->
  exists fs',
    fst (addIncludeFile w filename content) = setFS w fs'
    /\ keepsOthers (includeTarget filename) fs fs'.
Proof.
  intros Hm. rewrite (addIncludeFile_unfold w fs filename content Hm).
  destruct (mkdirLoop fs "/include" (removelast (JS.split "/" filename)))
    as [fs1 [u|e]] eqn:Hloop.
  - destruct (replaceFile fs1 (includePath filename) content) as [fs2 c] eqn:Hrep.
    exists fs2. split; [reflexivity|].
    eapply keepsOthers_trans; [eapply mkdirLoop_keeps, Hloop|].
    eapply replaceFile_keeps, Hrep.
  - exists fs1. split; [reflexivity|]. eapply mkdirLoop_keeps, Hloop.
Qed.

(** X9.  Whether it returns or throws, [addIncludeFile] leaves every
    file and directory other than its own target as it was, and does
    not touch the ready flag or the queue; without a module instance it
    throws and changes nothing. *)
Theorem addIncludeFile_frame (w : wrapper) (filename content : string) :
  match compilerModule w with
  | None =>
      addIncludeFile w filename content = (w, Throw (JsError notInitialized))
  | Some fs =>
      exists fs',
        fst (addIncludeFile w filename content)
        = mkWrapper (Some fs') (compilerReady w) (readyCallbacks w)
        /\ forall q n, q <> includeTarget filename ->
                       FS.lookupNode fs q = Some n -> FS.lookupNode fs' q = Some n
  end.
Proof.
  destruct (compilerModule w) as [fs|] eqn:Hm.
  - destruct (addIncludeFile_keeps w fs filename content Hm) as [fs' [Heq Hk]].
    exists fs'. split; [exact Heq | exact Hk].
  - unfold addIncludeFile. now rewrite Hm.
Qed.

Lemma addIncludeFile_frame_witness :
  exists fs',
    fst (addIncludeFile (mkWrapper (Some libStore) true []) "lib/new.inc" "native h();")
    = mkWrapper (Some fs') true []
    /\ FS.lookupNode fs' ["include"; "old.inc"] = Some (File "stale").
Proof.
  pose proof (addIncludeFile_frame (mkWrapper (Some libStore) true [])
                "lib/new.inc" "native h();") as H.
  cbn [compilerModule] in H. destruct H as [fs' [Heq Hk]].
  exists fs'. split; [exact Heq|].
  apply Hk; [discriminate | reflexivity].
Defined.
(** ** Bulk staging *)

Lemma addIncludeFiles_app pre : forall w post,
  addIncludeFiles w (pre ++ post)
  = match addIncludeFiles w pre with
    | (w1, Return _) => addIncludeFiles w1 post
    | (w1, Throw e) => (w1, Throw e)
    end.
Proof.
  induction pre as [|[f c] pre IH]; intros w post; [reflexivity|].
  cbn [app addIncludeFiles].
  destruct (addIncludeFile w f c) as [w1 [u|e]]; [apply IH | reflexivity].
Qed.

Lemma addIncludeFile_module_kept w filename content fs :
  compilerModule w = Some fs ->
  compilerModule (fst (addIncludeFile w filename content)) <> None.
Proof.
  intros Hm. destruct (addIncludeFile_keeps w fs filename content Hm) as [fs' [-> _]].
  discriminate.
Qed.

(** A node survives every later entry that does not write to its path,
    whether those entries return or throw. *)
Lemma addIncludeFiles_keeps_node files : forall w fs w' c p n,
  addIncludeFiles w files = (w', c) ->
  compilerModule w = Some fs ->
  FS.lookupNode fs p = Some n ->
  Forall (fun entry => includeTarget (fst entry) <> p) files ->
  exists fs', compilerModule w' = Some fs' /\ FS.lookupNode fs' p = Some n.
Proof.
  induction files as [|[f x] files IH]; intros w fs w' c p n; cbn [addIncludeFiles].
  - intros H Hm Hn _. inversion H; subst. eauto.
  - intros H Hm Hn Hall. inversion Hall as [|? ? Hf Hrest]; subst. cbn [fst] in Hf.
    destruct (addIncludeFile_keeps w fs f x Hm) as [fs1 [Heq Hk]].
    destruct (addIncludeFile w f x) as [w1 [u|e]] eqn:Hadd; cbn [fst] in Heq; subst w1.
    + eapply (IH _ fs1 _ _ _ _ H); [reflexivity | | exact Hrest].
      apply Hk; [congruence | exact Hn].
    + inversion H; subst. exists fs1. split; [reflexivity|].
      apply Hk; [congruence | exact Hn].
Qed.

(** X10.  [addIncludeFiles] stages the entries in list order.  When it
    returns, every entry whose path no later entry writes to can be
    read back with its own content.  When an entry throws, the call
    throws that error at once: the entries after it are not attempted,
    and nothing staged before it is rolled back. *)
Theorem addIncludeFiles_sequential
    (w : wrapper) (pre post : list (string * string)) (f c : string) :
  (forall w' u,
     addIncludeFiles w (pre ++ (f, c) :: post) = (w', Return u) ->
     Forall (fun entry => includeTarget (fst entry) <> includeTarget f) post ->
     exists fs', compilerModule w' = Some fs'
                 /\ FS.readFile fs' (includePath f) = inl c)
  /\ (forall w1 u w2 e,
        addIncludeFiles w pre = (w1, Return u) ->
        addIncludeFile w1 f c = (w2, Throw e) ->
        addIncludeFiles w (pre ++ (f, c) :: post) = (w2, Throw e))
  /\ (forall w1 e,
        addIncludeFiles w pre = (w1, Throw e) ->
        addIncludeFiles w (pre ++ (f, c) :: post) = (w1, Throw e)).
Proof.
  split; [|split].
  - intros w' u. rewrite addIncludeFiles_app.
    destruct (addIncludeFiles w pre) as [w1 [u1|e1]]; [|discriminate].
    cbn [addIncludeFiles].
    destruct (addIncludeFile w1 f c) as [w2 [u2|e2]] eqn:Hadd; [|discriminate].
    intros Hpost Hall.
    destruct (addIncludeFile_ok _ _ _ _ _ Hadd) as [fs [fs1 [Hm [_ [-> [Hp _]]]]]].
    destruct (addIncludeFiles_keeps_node post _ _ w' (Return u) (includeTarget f)
                (File c) Hpost eq_refl) as [fs' [Hm' Hn]].
    + unfold includeTarget. now apply lookupNode_insert_eq.
    + exact Hall.
    + exists fs'. split; [exact Hm'|]. unfold FS.readFile.
      unfold includeTarget in Hn. now rewrite Hn.
  - intros w1 u w2 e Hpre Hadd. rewrite addIncludeFiles_app, Hpre.
    cbn [addIncludeFiles]. now rewrite Hadd.
  - intros w1 e Hpre. now rewrite addIncludeFiles_app, Hpre.
Qed.

Lemma addIncludeFiles_sequential_witness :
  (exists fs',
     compilerModule
       (fst (addIncludeFiles readyWrapper
               ([("core.inc", "native a();")]
                ++ ("lib/float.inc", "native b();") :: [("core.inc", "native c();")])))
     = Some fs'
     /\ FS.readFile fs' (includePath "lib/float.inc") = inl "native b();")
  /\ addIncludeFiles readyWrapper
       ([("core.inc", "native a();")] ++ ("", "x") :: [("late.inc", "native d();")])
     = (fst (addIncludeFile (fst (addIncludeFiles readyWrapper [("core.inc", "native a();")]))
               "" "x"),
        Throw (ErrnoError EISDIR))
  /\ addIncludeFiles initialWrapper
       ([("core.inc", "native a();")] ++ ("b.inc", "x") :: [])
     = (initialWrapper, Throw (JsError notInitialized)).
Proof.
  split; [|split].
  - destruct (addIncludeFiles_sequential readyWrapper [("core.inc", "native a();")]
                [("core.inc", "native c();")] "lib/float.inc" "native b();")
      as [H _].
    apply (H _ tt); [reflexivity|].
    constructor; [discriminate | constructor].
  - destruct (addIncludeFiles_sequential readyWrapper [("core.inc", "native a();")]
                [("late.inc", "native d();")] "" "x") as [_ [H _]].
    apply (H (fst (addIncludeFiles readyWrapper [("core.inc", "native a();")])) tt);
      reflexivity.
  - destruct (addIncludeFiles_sequential initialWrapper [("core.inc", "native a();")]
                [] "b.inc" "x") as [_ [_ H]].
    apply H. reflexivity.
Defined.

(** ** Cleanup and the rest of the store *)

Lemma cleanupLoop_keeps files : forall fs fs' r q,
  cleanupLoop fs files = (fs', r) ->
  Forall (fun file => PATH.resolve file <> q) files ->
  FS.lookupNode fs' q = FS.lookupNode fs q.
Proof.
  induction files as [|file rest IH]; intros fs fs' r q; cbn [cleanupLoop].
  - intros H _. now inversion H.
  - intros H Hall. inversion Hall as [|? ? Hf Hrest]; subst.
    destruct (FS.exists_ fs file).
    + destruct (FS.unlink fs file) as [fs1|e] eqn:Hu.
      * apply unlink_inl in Hu as [-> _].
        rewrite (IH _ _ _ _ H Hrest). now apply lookupNode_delete_ne.
      * now inversion H.
    + exact (IH _ _ _ _ H Hrest).
Qed.

(** X11.  [cleanup] touches nothing but the input, output and log
    paths: every other file and directory is left as it was, so an
    include file staged by [addIncludeFile] can still be read after
    [cleanup]. *)
Theorem cleanup_keeps_includes (w : wrapper) (fs : filesystem) :
  compilerModule w = Some fs ->
  (exists fs',
     fst (cleanup w) = mkWrapper (Some fs') (compilerReady w) (readyCallbacks w)
     /\ forall q, q <> PATH.resolve inputPath -> q <> PATH.resolve outputPath ->
                  q <> PATH.resolve logPath ->
                  FS.lookupNode fs' q = FS.lookupNode fs q)
  /\ (forall filename content w1 u,
        addIncludeFile w filename content = (w1, Return u) ->
        includeTarget filename <> PATH.resolve inputPath ->
        includeTarget filename <> PATH.resolve outputPath ->
        includeTarget filename <> PATH.resolve logPath ->
        exists fs2,
          compilerModule (fst (cleanup w1)) = Some fs2
          /\ FS.readFile fs2 (includePath filename) = inl content).
Proof.
  intros Hm.
  assert (Hframe : forall w0 fs0, compilerModule w0 = Some fs0 ->
    exists fs', fst (cleanup w0) = setFS w0 fs'
      /\ forall q, q <> PATH.resolve inputPath -> q <> PATH.resolve outputPath ->
                   q <> PATH.resolve logPath ->
                   FS.lookupNode fs' q = FS.lookupNode fs0 q).
  { intros w0 fs0 Hm0. unfold cleanup. rewrite Hm0.
    destruct (cleanupLoop fs0 cleanupFiles) as [fs' r] eqn:Hloop.
    exists fs'. split; [reflexivity|]. intros q Hi Ho Hl.
    apply (cleanupLoop_keeps _ _ _ _ _ Hloop).
    repeat constructor; congruence. }
  split; [exact (Hframe w fs Hm)|].
  intros filename content w1 u Hadd Hi Ho Hl.
  destruct (addIncludeFile_ok _ _ _ _ _ Hadd) as [fs0 [fs1 [_ [_ [-> [Hp _]]]]]].
  destruct (Hframe (setFS w (<[PATH.resolve (includePath filename) := File content]> fs1))
              _ eq_refl) as [fs2 [Heq Hk]].
  exists fs2. rewrite Heq. split; [reflexivity|].
  unfold FS.readFile. fold (includeTarget filename).
  rewrite (Hk _ Hi Ho Hl). unfold includeTarget.
  now rewrite lookupNode_insert_eq.
Qed.

Lemma cleanup_keeps_includes_witness :
  exists fs2,
    compilerModule
      (fst (cleanup (fst (addIncludeFile compiledWrapper "lib/a_samp.inc" "native f();"))))
    = Some fs2
    /\ FS.readFile fs2 (includePath "lib/a_samp.inc") = inl "native f();".
Proof.
  destruct (cleanup_keeps_includes compiledWrapper stagedStore eq_refl) as [_ H].
  apply (H "lib/a_samp.inc" "native f();" _ tt); [reflexivity | discriminate ..].
Defined.

(** X12.  After a [cleanup] that reported nothing, [getCompiledAMX]
    returns absence: the artifact of an earlier compile is gone. *)
Theorem cleanup_then_getCompiledAMX (w : wrapper) :
  compilerModule w <> None ->
  snd (cleanup w) = None ->
  getCompiledAMX (fst (cleanup w)) = Return None.
Proof.
  intros Hm Hrep. unfold cleanup in *.
  destruct (compilerModule w) as [fs|]; [|congruence].
  destruct (cleanupLoop fs cleanupFiles) as [fs' r] eqn:Hloop.
  cbn [snd] in Hrep. subst r. cbn [fst].
  pose proof (cleanupLoop_clean _ _ _ Hloop) as Hclean.
  inversion Hclean as [|? ? _ Hrest]; subst.
  inversion Hrest as [|? ? Hout _]; subst.
  unfold getCompiledAMX. rewrite setFS_module, Hout. reflexivity.
Qed.

Lemma cleanup_then_getCompiledAMX_witness :
  getCompiledAMX compiledWrapper = Return (Some "AMX!")
  /\ getCompiledAMX (fst (cleanup compiledWrapper)) = Return None.
Proof.
  split; [reflexivity|].
  apply (cleanup_then_getCompiledAMX compiledWrapper); [discriminate | reflexivity].
Defined.

(** ** The lifecycle manager: what every run keeps *)

Lemma step_rank s ev :
  (rank (moduleState (vars s)) <= rank (moduleState (vars (step s ev))))%nat.
Proof.
  destruct s as [[m r q] cs rs].
  destruct ev as [id | id failure | id result]; cbn [step calls].
  - destruct (cs !! id); [lia|].
    unfold initEnter, moduleState. cbn.
    destruct r; [cbn; lia|]. destruct m; cbn; lia.
  - destruct (cs !! id) as [[]|]; try lia. destruct failure; cbn; lia.
  - destruct (cs !! id) as [[]|]; try lia.
    destruct result as [fs|error]; [|cbn; lia].
    unfold initFinish, moduleState. cbn.
    destruct (FS.mkdir fs "/include"); cbn; destruct r; try destruct m; cbn; lia.
Qed.

(** X13.  The lifecycle state only moves forward, from Uninitialized
    through Initializing to Ready, along every run: once Ready the
    wrapper stays Ready, and nothing ever takes it back to
    Uninitialized. *)
Theorem lifecycle_only_forward (evs : list event) (s : world) :
  (rank (moduleState (vars s)) <= rank (moduleState (vars (run s evs))))%nat
  /\ (moduleState (vars s) = Ready -> moduleState (vars (run s evs)) = Ready)
  /\ (moduleState (vars s) <> Uninitialized ->
      moduleState (vars (run s evs)) <> Uninitialized).
Proof.
  assert (Hrank : forall evs s,
    (rank (moduleState (vars s)) <= rank (moduleState (vars (run s evs))))%nat).
  { clear. induction evs as [|ev evs IH]; intros s; [cbn; lia|].
    rewrite run_cons. etransitivity; [apply step_rank | apply IH]. }
  specialize (Hrank evs s). split; [exact Hrank|].
  destruct (moduleState (vars s)), (moduleState (vars (run s evs)));
    cbn in Hrank; split; intros H; try congruence; try lia.
Qed.

Lemma lifecycle_only_forward_witness :
  moduleState (vars (run (mkWorld readyWrapper ∅ [])
                       (firstLoaded preloaded ++ loadEvents 7 ∅))) = Ready.
Proof.
  destruct (lifecycle_only_forward (firstLoaded preloaded ++ loadEvents 7 ∅)
              (mkWorld readyWrapper ∅ [])) as [_ [H _]].
  apply H. reflexivity.
Defined.

Lemma queueInvariant_initial : queueInvariant initialWorld.
Proof.
  repeat split; cbn.
  - constructor.
  - intros H. inversion H.
  - intros H. rewrite lookup_empty in H. discriminate H.
  - intros id H. inversion H.
Qed.

Lemma queueInvariant_setCall s id c :
  queueInvariant s ->
  calls s !! id <> Some Pending ->
  calls s !! id <> Some Fulfilled ->
  c <> Pending ->
  queueInvariant (setCall s id c).
Proof.
  intros (Hnd & Hq & Hres & Hready) Hnp Hnf Hc.
  unfold queueInvariant, setCall. cbn [vars calls resolved].
  split; [exact Hnd|]. split; [|split; [|exact Hready]].
  - intros k. rewrite Hq. destruct (decide (id = k)) as [->|Hne].
    + rewrite lookup_insert_eq. split; intros H; congruence.
    + now rewrite lookup_insert_ne.
  - intros k Hk. specialize (Hres k Hk).
    destruct (decide (id = k)) as [->|Hne]; [congruence|].
    now rewrite lookup_insert_ne.
Qed.

Lemma step_queueInvariant s ev : queueInvariant s -> queueInvariant (step s ev).
Proof.
  intros Inv. pose proof Inv as (Hnd & Hq & Hres & Hready).
  destruct ev as [id | id failure | id result]; cbn [step].
  - destruct (calls s !! id) as [c|] eqn:Hid; [exact Inv|].
    unfold initEnter. destruct (compilerReady (vars s)) eqn:Hr.
    + apply queueInvariant_setCall; try assumption; congruence.
    + destruct (compilerModule (vars s)) as [fs|] eqn:Hm.
      * assert (Hfresh : id ∉ resolved s ++ readyCallbacks (vars s)).
        { intros Hin. apply elem_of_app in Hin as [Hin|Hin].
          - apply Hres in Hin. congruence.
          - apply Hq in Hin. congruence. }
        unfold queueInvariant. cbn [vars calls resolved readyCallbacks compilerReady].
        split; [|split; [|split; [|intros H; first [discriminate H | rewrite Hr in H; discriminate H]]]].
        -- rewrite app_assoc. apply NoDup_app. split; [exact Hnd|].
           split; [|apply NoDup_singleton].
           intros k Hk Hk'. apply list_elem_of_singleton in Hk'. subst k.
           contradiction.
        -- intros k. rewrite elem_of_app, list_elem_of_singleton, Hq.
           destruct (decide (id = k)) as [->|Hne].
           ++ rewrite lookup_insert_eq. split; [reflexivity | now right].
           ++ rewrite lookup_insert_ne by exact Hne.
              split; [intros [H|H]; [exact H | congruence] | now left].
        -- intros k Hk. specialize (Hres k Hk).
           destruct (decide (id = k)) as [->|Hne]; [congruence|].
           now rewrite lookup_insert_ne.
      * apply queueInvariant_setCall; try assumption; congruence.
  - destruct (calls s !! id) as [[]|] eqn:Hid; try exact Inv.
    destruct failure; apply queueInvariant_setCall; try assumption;
      unfold initFailure; congruence.
  - destruct (calls s !! id) as [[]|] eqn:Hid; try exact Inv.
    destruct result as [fs|error];
      [|apply queueInvariant_setCall; try assumption; unfold initFailure; congruence].
    unfold initFinish. destruct (FS.mkdir fs "/include") as [fs'|e].
    + unfold queueInvariant. cbn [vars calls resolved readyCallbacks compilerReady].
      rewrite app_nil_r.
      split; [exact Hnd|]. split; [|split; [|reflexivity]].
      * intros k. split; [intros H; inversion H|].
        destruct (decide (id = k)) as [->|Hne].
        -- rewrite lookup_insert_eq. discriminate.
        -- rewrite lookup_insert_ne by exact Hne. rewrite resolveAll_lookup.
           destruct (decide (k ∈ readyCallbacks (vars s))) as [_|Hn]; [discriminate|].
           intros H. apply Hq in H. contradiction.
      * intros k Hk. destruct (decide (id = k)) as [->|Hne].
        -- apply lookup_insert_eq.
        -- rewrite lookup_insert_ne by exact Hne. rewrite resolveAll_lookup.
           destruct (decide (k ∈ readyCallbacks (vars s))) as [_|Hn]; [reflexivity|].
           apply elem_of_app in Hk as [Hk|Hk]; [now apply Hres | contradiction].
    + unfold queueInvariant. cbn [vars calls resolved readyCallbacks compilerReady].
      split; [exact Hnd|]. split; [|split; [|exact Hready]].
      * intros k. rewrite Hq. destruct (decide (id = k)) as [->|Hne].
        -- rewrite lookup_insert_eq, Hid. unfold initFailure.
           split; intros H; congruence.
        -- now rewrite lookup_insert_ne.
      * intros k Hk. specialize (Hres k Hk).
        destruct (decide (id = k)) as [->|Hne]; [congruence|].
        now rewrite lookup_insert_ne.
Qed.

Lemma run_queueInvariant evs : forall s, queueInvariant s -> queueInvariant (run s evs).
Proof.
  induction evs as [|ev evs IH]; intros s Inv; [exact Inv|].
  rewrite run_cons. apply IH, step_queueInvariant, Inv.
Qed.

(** X14.  In every state a run can reach from the start, the queue
    holds exactly the callers whose promise is pending, each once; a
    caller is resumed from the queue at most once and is then
    fulfilled; and when the wrapper is Ready the queue is empty and no
    caller is pending. *)
Theorem queue_holds_pending_callers (evs : list event) :
  let s := run initialWorld evs in
  NoDup (resolved s ++ readyCallbacks (vars s))
  /\ (forall id, id ∈ readyCallbacks (vars s) <-> calls s !! id = Some Pending)
  /\ (forall id, id ∈ resolved s -> calls s !! id = Some Fulfilled)
  /\ (moduleState (vars s) = Ready ->
      readyCallbacks (vars s) = [] /\ forall id, calls s !! id <> Some Pending).
Proof.
  intros s.
  destruct (run_queueInvariant evs initialWorld queueInvariant_initial)
    as (Hnd & Hq & Hres & Hready).
  fold s in Hnd, Hq, Hres, Hready.
  split; [exact Hnd|]. split; [exact Hq|]. split; [exact Hres|].
  intros Hst. assert (Hr : compilerReady (vars s) = true).
  { unfold moduleState in Hst. destruct (compilerReady (vars s)); [reflexivity|].
    destruct (compilerModule (vars s)); discriminate Hst. }
  specialize (Hready Hr). split; [exact Hready|].
  intros id Hid. apply Hq in Hid. rewrite Hready in Hid. inversion Hid.
Qed.

Lemma queue_holds_pending_callers_witness :
  let s := run initialWorld (firstLoaded ∅ ++ [Call 2]) in
  readyCallbacks (vars s) = [] /\ forall id, calls s !! id <> Some Pending.
Proof.
  intros s.
  destruct (queue_holds_pending_callers (firstLoaded ∅ ++ [Call 2])) as [_ [_ [_ H]]].
  apply H. reflexivity.
Defined.

(** ** Initialising and then staging *)

Lemma plainName_spec filename :
  plainName filename = true ->
  lacks "/" filename = true
  /\ String.eqb filename EmptyString = false
  /\ String.eqb filename "." = false
  /\ String.eqb filename ".." = false.
Proof.
  unfold plainName. intros H.
  apply andb_prop in H as [H H3]. apply andb_prop in H as [H H2].
  apply andb_prop in H as [H0 H1].
  repeat split; try assumption; now apply negb_true_iff.
Qed.

Lemma includeTarget_plain filename :
  plainName filename = true -> includeTarget filename = ["include"; filename].
Proof.
  intros H. apply plainName_spec in H as (Hs & H0 & H1 & H2).
  unfold includeTarget, PATH.resolve, includePath.
  change (String.append "/include/" filename)
    with (String.append EmptyString (String "/" (String.append "include" (String "/" filename)))).
  rewrite (split_append_sep "/" EmptyString _ eq_refl).
  rewrite (split_append_sep "/" "include" _ eq_refl).
  rewrite (split_lacks "/" filename Hs).
  cbn [PATH.normalizeArray]. rewrite H0, H1, H2. reflexivity.
Qed.

Lemma replaceFile_new fs path content :
  FS.lookupNode fs (PATH.resolve path) = None ->
  FS.lookupNode fs (PATH.dirname (PATH.resolve path)) = Some Dir ->
  replaceFile fs path content
  = (<[PATH.resolve path := File content]> fs, Return tt).
Proof.
  intros Hl Hd. unfold replaceFile, FS.exists_.
  rewrite Hl. unfold FS.writeFile, FS.mayCreate. now rewrite Hl, Hd.
Qed.

(** Staging a top-level include in a store that has the include
    directory. *)
Lemma addIncludeFile_plain w fs filename content :
  compilerModule w = Some fs ->
  plainName filename = true ->
  FS.lookupNode fs ["include"] = Some Dir ->
  FS.lookupNode fs ["include"; filename] <> Some Dir ->
  addIncludeFile w filename content
  = (setFS w (<[ ["include"; filename] := File content ]> fs), Return tt).
Proof.
  intros Hm Hplain Hinc Hnd.
  pose proof (includeTarget_plain filename Hplain) as Ht. unfold includeTarget in Ht.
  apply plainName_spec in Hplain as (Hs & _).
  rewrite (addIncludeFile_unfold w fs filename content Hm).
  rewrite (split_lacks "/" filename Hs). cbn [removelast mkdirLoop].
  destruct (FS.lookupNode fs ["include"; filename]) as [[old|]|] eqn:Hl.
  - rewrite (replaceFile_file fs (includePath filename) content old);
      rewrite Ht; [reflexivity | exact Hl | exact Hinc].
  - congruence.
  - rewrite (replaceFile_new fs (includePath filename) content);
      rewrite Ht; [reflexivity | exact Hl | exact Hinc].
Qed.

Lemma mkdir_include fs :
  FS.lookupNode fs ["include"] = None ->
  FS.mkdir fs "/include" = inl (<[ ["include"] := Dir ]> fs).
Proof.
  intros Hl. unfold FS.mkdir, FS.mayCreate.
  change (PATH.resolve "/include") with ["include"]. now rewrite Hl.
Qed.

Lemma run_loadEvents s id fs :
  moduleState (vars s) = Uninitialized ->
  calls s !! id = None ->
  FS.lookupNode fs ["include"] = None ->
  vars (run s (loadEvents id fs)) = mkWrapper (Some (<[ ["include"] := Dir ]> fs)) true []
  /\ calls (run s (loadEvents id fs)) !! id = Some Fulfilled.
Proof.
  intros Hst Hid Hfs. destruct s as [[m r q] cs rs].
  unfold moduleState in Hst. cbn in Hst, Hid.
  destruct r; [discriminate Hst|]. destruct m; [discriminate Hst|].
  unfold loadEvents, run. cbn [fold_left step calls]. rewrite Hid.
  unfold initEnter. cbn [vars compilerReady compilerModule setCall calls resolved].
  rewrite lookup_insert_eq. cbn [setCall vars calls resolved].
  rewrite lookup_insert_eq. unfold initFinish. rewrite (mkdir_include fs Hfs).
  cbn. split; [reflexivity | apply lookup_insert_eq].
Qed.

(** X15.  Starting from an uninitialised wrapper, a call of
    [initCompiler] whose load succeeds with a module instance that has
    no [/include] yet leaves the wrapper Ready and the caller
    fulfilled; a top-level include file staged next is written and can
    be read back. *)
Theorem init_then_stage
    (s : world) (id : nat) (fs : filesystem) (filename content : string) :
  moduleState (vars s) = Uninitialized ->
  calls s !! id = None ->
  FS.lookupNode fs ["include"] = None ->
  plainName filename = true ->
  FS.lookupNode fs ["include"; filename] <> Some Dir ->
  let s' := run s (loadEvents id fs) in
  moduleState (vars s') = Ready
  /\ calls s' !! id = Some Fulfilled
  /\ exists fs',
       addIncludeFile (vars s') filename content
       = (mkWrapper (Some fs') true [], Return tt)
       /\ FS.readFile fs' (includePath filename) = inl content
       /\ FS.exists_ fs' "/include" = true.
Proof.
  intros Hst Hid Hfs Hplain Hnd s'.
  destruct (run_loadEvents s id fs Hst Hid Hfs) as [Hvars Hcall].
  fold s' in Hvars, Hcall. rewrite Hvars.
  split; [reflexivity|]. split; [exact Hcall|].
  eexists. split.
  - apply addIncludeFile_plain; [reflexivity | exact Hplain | |].
    + now rewrite lookupNode_insert_eq.
    + rewrite lookupNode_insert_ne by discriminate. exact Hnd.
  - pose proof (includeTarget_plain filename Hplain) as Ht. unfold includeTarget in Ht.
    split.
    + unfold FS.readFile. rewrite Ht. now rewrite lookupNode_insert_eq.
    + apply exists_lookupNode. change (PATH.resolve "/include") with ["include"].
      rewrite lookupNode_insert_ne by discriminate.
      rewrite lookupNode_insert_eq; discriminate.
Qed.

Lemma init_then_stage_witness :
  let s' := run initialWorld (loadEvents 0 ∅) in
  moduleState (vars s') = Ready
  /\ calls s' !! 0%nat = Some Fulfilled
  /\ exists fs',
       addIncludeFile (vars s') "a_samp.inc" "native f();"
       = (mkWrapper (Some fs') true [], Return tt)
       /\ FS.readFile fs' (includePath "a_samp.inc") = inl "native f();"
       /\ FS.exists_ fs' "/include" = true.
Proof.
  apply (init_then_stage initialWorld 0 ∅ "a_samp.inc" "native f();");
    try reflexivity; discriminate.
Defined.

(** X16.  When two calls of [initCompiler] overlap and both loads
    succeed, the second module instance replaces the first: an include
    file staged after the first load finished cannot be read any more
    once the second load has finished, although the wrapper is Ready. *)
Theorem overlapping_loads_discard_includes
    (fsA fsB : filesystem) (filename content : string) :
  FS.lookupNode fsA ["include"] = None ->
  FS.lookupNode fsA ["include"; filename] <> Some Dir ->
  FS.lookupNode fsB ["include"] = None ->
  FS.lookupNode fsB ["include"; filename] = None ->
  plainName filename = true ->
  let s1 := run initialWorld (firstLoaded fsA) in
  exists w1 fs1,
    addIncludeFile (vars s1) filename content = (w1, Return tt)
    /\ compilerModule w1 = Some fs1
    /\ FS.readFile fs1 (includePath filename) = inl content
    /\ let s2 := step (mkWorld w1 (calls s1) (resolved s1)) (CreateSettled 1 (inl fsB)) in
       moduleState (vars s2) = Ready
       /\ exists fs2,
            compilerModule (vars s2) = Some fs2
            /\ FS.readFile fs2 (includePath filename) = inr ENOENT.
Proof.
  intros HA HAf HB HBf Hplain s1.
  pose proof (includeTarget_plain filename Hplain) as Ht. unfold includeTarget in Ht.
  assert (Hs1 : s1 = initFinish
                      (run initialWorld
                         [Call 0; Call 1; ImportSettled 0 None; ImportSettled 1 None])
                      0 fsA) by reflexivity.
  assert (Hvars : vars s1 = mkWrapper (Some (<[ ["include"] := Dir ]> fsA)) true []).
  { rewrite Hs1. unfold initFinish. now rewrite (mkdir_include fsA HA). }
  assert (Hcall : calls s1 !! 1%nat = Some AwaitCreate).
  { rewrite Hs1. unfold initFinish. rewrite (mkdir_include fsA HA).
    cbn [calls]. rewrite lookup_insert_ne by lia. reflexivity. }
  rewrite Hvars.
  eexists _, _. split.
  - apply addIncludeFile_plain; [reflexivity | exact Hplain | |].
    + now rewrite lookupNode_insert_eq.
    + rewrite lookupNode_insert_ne by discriminate. exact HAf.
  - split; [reflexivity|]. split.
    + unfold FS.readFile. rewrite Ht. now rewrite lookupNode_insert_eq.
    + cbn [step calls]. rewrite Hcall. unfold initFinish.
      rewrite (mkdir_include fsB HB). cbn [vars].
      split; [reflexivity|]. eexists. split; [reflexivity|].
      unfold FS.readFile. rewrite Ht.
      rewrite lookupNode_insert_ne by discriminate. now rewrite HBf.
Qed.

Lemma overlapping_loads_discard_includes_witness :
  let s1 := run initialWorld (firstLoaded ∅) in
  exists w1 fs1,
    addIncludeFile (vars s1) "a_samp.inc" "native f();" = (w1, Return tt)
    /\ compilerModule w1 = Some fs1
    /\ FS.readFile fs1 (includePath "a_samp.inc") = inl "native f();"
    /\ let s2 := step (mkWorld w1 (calls s1) (resolved s1)) (CreateSettled 1 (inl ∅)) in
       moduleState (vars s2) = Ready
       /\ exists fs2,
            compilerModule (vars s2) = Some fs2
            /\ FS.readFile fs2 (includePath "a_samp.inc") = inr ENOENT.
Proof.
  apply (overlapping_loads_discard_includes ∅ ∅ "a_samp.inc" "native f();");
    try reflexivity; discriminate.
Defined.

(** ** Remote loading *)

Lemma loadOne_keeps w fs filename r :
  compilerModule w = Some fs ->
  exists fs',
    fst (loadOne w filename r) = setFS w fs'
    /\ keepsOthers (includeTarget filename) fs fs'.
Proof.
  intros Hm. destruct r as [content|]; cbn [loadOne].
  - destruct (addIncludeFile_keeps w fs filename content Hm) as [fs' [Heq Hk]].
    exists fs'. split; [|exact Hk].
    destruct (addIncludeFile w filename content) as [w' [u|e]]; exact Heq.
  - exists fs. split; [symmetry; now apply setFS_same | apply keepsOthers_refl].
Qed.

Lemma loadIncludeFiles_app pre : forall w post,
  loadIncludeFiles w (pre ++ post)
  = (fst (loadIncludeFiles (fst (loadIncludeFiles w pre)) post),
     (snd (loadIncludeFiles w pre)
      + snd (loadIncludeFiles (fst (loadIncludeFiles w pre)) post))%nat).
Proof.
  induction pre as [|[f r] pre IH]; intros w post.
  - cbn [app loadIncludeFiles fst snd]. now destruct (loadIncludeFiles w post).
  - cbn [app loadIncludeFiles].
    destruct (loadOne w f r) as [w1 rejected].
    rewrite IH. destruct (loadIncludeFiles w1 pre) as [w2 n].
    cbn [fst snd]. f_equal. lia.
Qed.

Lemma loadIncludeFiles_keeps_node arrivals : forall w fs p n,
  compilerModule w = Some fs ->
  FS.lookupNode fs p = Some n ->
  Forall (fun a => includeTarget (fst a) <> p) arrivals ->
  exists fs',
    compilerModule (fst (loadIncludeFiles w arrivals)) = Some fs'
    /\ FS.lookupNode fs' p = Some n.
Proof.
  induction arrivals as [|[f r] arrivals IH]; intros w fs p n Hm Hn Hall.
  - exists fs. split; assumption.
  - inversion Hall as [|? ? Hf Hrest]; subst. cbn [fst] in Hf.
    cbn [loadIncludeFiles].
    destruct (loadOne_keeps w fs f r Hm) as [fs1 [Heq Hk]].
    destruct (loadOne w f r) as [w1 rejected]. cbn [fst] in Heq. subst w1.
    destruct (IH (setFS w fs1) fs1 p n eq_refl (Hk p n ltac:(congruence) Hn) Hrest)
      as [fs' [Hm' Hn']].
    destruct (loadIncludeFiles (setFS w fs1) arrivals) as [w2 k].
    exists fs'. split; assumption.
Qed.

(** X17.  [loadIncludeFiles] reports at most as many failures as there
    are files, and called before the compiler is initialised it stages
    nothing and counts every file as failed, without throwing. *)
Theorem loadIncludeFiles_before_init
    (w : wrapper) (arrivals : list (string * fetchResult)) :
  (snd (loadIncludeFiles w arrivals) <= length arrivals)%nat
  /\ (compilerModule w = None ->
      loadIncludeFiles w arrivals = (w, length arrivals)).
Proof.
  split.
  - revert w. induction arrivals as [|[f r] arrivals IH]; intros w; [cbn; lia|].
    cbn [loadIncludeFiles length]. destruct (loadOne w f r) as [w1 rejected].
    specialize (IH w1). destruct (loadIncludeFiles w1 arrivals) as [w2 n].
    cbn [snd] in *. destruct rejected; lia.
  - intros Hm. induction arrivals as [|[f r] arrivals IH]; [reflexivity|].
    cbn [loadIncludeFiles length].
    assert (Hone : loadOne w f r = (w, true)).
    { destruct r as [content|]; [|reflexivity].
      cbn [loadOne]. unfold addIncludeFile. now rewrite Hm. }
    rewrite Hone, IH. reflexivity.
Qed.

Lemma loadIncludeFiles_before_init_witness :
  loadIncludeFiles initialWrapper
    [("a_samp.inc", Fetched "native f();"); ("core.inc", FetchFailed)]
  = (initialWrapper, 2%nat).
Proof.
  apply (loadIncludeFiles_before_init initialWrapper
           [("a_samp.inc", Fetched "native f();"); ("core.inc", FetchFailed)]).
  reflexivity.
Defined.

(** X18.  Failures are isolated per file.  A file whose fetch succeeded
    and whose [addIncludeFile] returned can be read back with its
    content once all fetches have settled, whatever happened to the
    files that settled before it and after it, as long as no later one
    writes to the same path; and the failures before and after it add
    up to the reported count. *)
Theorem loadIncludeFiles_isolates_failures
    (w : wrapper) (pre post : list (string * fetchResult)) (f c : string)
    (w1 : wrapper) (u : unit) :
  addIncludeFile (fst (loadIncludeFiles w pre)) f c = (w1, Return u) ->
  Forall (fun a => includeTarget (fst a) <> includeTarget f) post ->
  exists fs',
    compilerModule (fst (loadIncludeFiles w (pre ++ (f, Fetched c) :: post))) = Some fs'
    /\ FS.readFile fs' (includePath f) = inl c
    /\ snd (loadIncludeFiles w (pre ++ (f, Fetched c) :: post))
       = (snd (loadIncludeFiles w pre) + snd (loadIncludeFiles w1 post))%nat.
Proof.
  intros Hadd Hall.
  rewrite loadIncludeFiles_app. cbn [fst snd loadIncludeFiles loadOne].
  rewrite Hadd.
  destruct (addIncludeFile_ok _ _ _ _ _ Hadd) as [fs [fs1 [_ [_ [Hw1 [Hp _]]]]]].
  destruct (loadIncludeFiles_keeps_node post w1 _ (includeTarget f) (File c)
              ltac:(rewrite Hw1; reflexivity)
              ltac:(unfold includeTarget; now apply lookupNode_insert_eq) Hall)
    as [fs' [Hm' Hn]].
  destruct (loadIncludeFiles w1 post) as [w2 k]. cbn [fst snd] in *.
  exists fs'. split; [exact Hm'|]. split.
  - unfold FS.readFile. unfold includeTarget in Hn. now rewrite Hn.
  - reflexivity.
Qed.

Lemma loadIncludeFiles_isolates_failures_witness :
  exists fs',
    compilerModule
      (fst (loadIncludeFiles readyWrapper
              ([("core.inc", FetchFailed)]
               ++ ("a_samp.inc", Fetched "native f();") :: [("", Fetched "x")])))
    = Some fs'
    /\ FS.readFile fs' (includePath "a_samp.inc") = inl "native f();"
    /\ snd (loadIncludeFiles readyWrapper
              ([("core.inc", FetchFailed)]
               ++ ("a_samp.inc", Fetched "native f();") :: [("", Fetched "x")]))
       = (1 + 1)%nat.
Proof.
  apply (loadIncludeFiles_isolates_failures readyWrapper [("core.inc", FetchFailed)]
           [("", Fetched "x")] "a_samp.inc" "native f();"
           (fst (addIncludeFile readyWrapper "a_samp.inc" "native f();")) tt).
  - reflexivity.
  - constructor; [discriminate | constructor].
Defined.

(** ** Directories in the way *)

(** X19.  When, after the directory prefixes have been ensured, the
    target of [addIncludeFile] is a directory, the call throws the
    error EISDIR and writes nothing: this is what an empty file name
    and a file name that ends in a slash run into. *)
Theorem addIncludeFile_directory_target
    (w : wrapper) (fs fs1 : filesystem) (filename content : string) :
  compilerModule w = Some fs ->
  mkdirLoop fs "/include" (removelast (JS.split "/" filename)) = (fs1, Return tt) ->
  FS.lookupNode fs1 (includeTarget filename) = Some Dir ->
  addIncludeFile w filename content = (setFS w fs1, Throw (ErrnoError EISDIR)).
Proof.
  intros Hm Hloop Hdir.
  rewrite (addIncludeFile_unfold w fs filename content Hm), Hloop.
  unfold replaceFile, FS.exists_, FS.unlink. unfold includeTarget in Hdir.
  now rewrite Hdir.
Qed.

Lemma addIncludeFile_directory_target_witness :
  addIncludeFile readyWrapper "" "native f();"
  = (readyWrapper, Throw (ErrnoError EISDIR))
  /\ addIncludeFile readyWrapper "lib/" "native f();"
     = (setFS readyWrapper (<[ ["include"; "lib"] := Dir ]> preloaded),
        Throw (ErrnoError EISDIR)).
Proof.
  split.
  - apply (addIncludeFile_directory_target readyWrapper preloaded preloaded "");
      reflexivity.
  - apply (addIncludeFile_directory_target readyWrapper preloaded
             (<[ ["include"; "lib"] := Dir ]> preloaded) "lib/");
      reflexivity.
Defined.






